(** * StructFile: the structured binary file layer of alfanous' bundled whoosh

    A shallow embedding of
    [src/alfanous/Support/whoosh/filedb/structfile.py] and the properties of
    its wire format, of its two mapped-view paths and of its lifecycle.

    Conventions of the embedding.
    - A byte string ([bytes]) is a [list byte]; a Python [int] is a [Z]
      (or an [N] where the code only produces non-negative values).
    - Absolute file offsets and element counts are [nat]: the code is only
      ever handed non-negative offsets and counts.
    - A Python exception is a value of [exn]; a method is a function from the
      state it mutates to a [result] and the new state.  A raised exception
      keeps every mutation made before it, as in Python. *)

From Stdlib Require Import String Ascii.
From Stdlib Require Import Strings.Byte.
From Stdlib Require Import Floats.SpecFloat.
From Stdlib Require Import ZArith NArith Lia Bool List.
Import ListNotations.

Local Open Scope nat_scope.

(** ** Bytes, exceptions and the state-and-exception monad *)

Definition bytes := list byte.

Inductive exn : Type :=
| AttributeError
| TypeError
| ValueError
| KeyError
| IndexError
| UnsupportedOperation
| StructError
| UnicodeEncodeError
| OverflowError
| IOError (file_name : option string) (position : nat) (data : bytes)
          (expected got : nat).

Inductive result (A : Type) : Type :=
| Ok (a : A)
| Err (e : exn).

Arguments Ok {A} a.
Arguments Err {A} e.

Definition M (S A : Type) : Type := S -> result A * S.

Definition ret {S A : Type} (a : A) : M S A := fun s => (Ok a, s).

Definition raise {S A : Type} (e : exn) : M S A := fun s => (Err e, s).

Definition bind {S A B : Type} (m : M S A) (k : A -> M S B) : M S B :=
  fun s =>
    match m s with
    | (Ok a, s') => k a s'
    | (Err e, s') => (Err e, s')
    end.

Definition lift_result {S A : Type} (r : result A) : M S A := fun s => (r, s).

Declare Scope py_scope.
Delimit Scope py_scope with py.
Notation "x <- m ;; k" := (bind m (fun x => k))
  (at level 61, m at next level, right associativity) : py_scope.
Notation "m ;; k" := (bind m (fun _ => k))
  (at level 61, right associativity) : py_scope.
Local Open Scope py_scope.

(** ** The wrapped file object

    A binary Python file object positioned by a cursor.  [content] is the
    file as the handle reads it, with everything written through the handle
    in it, whether the handle's buffer has been emptied into the file or
    not.  [mode], [fileno], [has_close] and [has_flush] are what [hasattr]
    and the constructor probe; [readable] and [writable] are what [read] and
    [write] check. *)

Record FileObj : Type := mkFile {
  content : bytes;
  cursor : nat;
  closed : bool;
  readable : bool;
  writable : bool;
  mode : option string;
  fileno : option nat;
  has_close : bool;
  has_flush : bool
}.

Definition set_cursor (p : nat) (f : FileObj) : FileObj :=
  mkFile (content f) p (closed f) (readable f) (writable f) (mode f)
         (fileno f) (has_close f) (has_flush f).

Definition set_content (c : bytes) (f : FileObj) : FileObj :=
  mkFile c (cursor f) (closed f) (readable f) (writable f) (mode f)
         (fileno f) (has_close f) (has_flush f).

Definition set_closed (b : bool) (f : FileObj) : FileObj :=
  mkFile (content f) (cursor f) b (readable f) (writable f) (mode f)
         (fileno f) (has_close f) (has_flush f).

(** [overwrite p d c]: the file contents after writing [d] at offset [p];
    a write past the end fills the gap with zero bytes. *)
Definition overwrite (p : nat) (d c : bytes) : bytes :=
  firstn p c ++ repeat x00 (p - length c) ++ d ++ skipn (p + length d) c.

(** [fileobj.read(n)] for [n >= 0]. *)
Definition file_read (n : nat) : M FileObj bytes :=
  fun f =>
    if closed f then (Err ValueError, f)
    else if negb (readable f) then (Err UnsupportedOperation, f)
    else
      let d := firstn n (skipn (cursor f) (content f)) in
      (Ok d, set_cursor (cursor f + length d) f).

(** [fileobj.read(n)] for [n < 0]: everything up to the end of the file. *)
Definition file_read_all : M FileObj bytes :=
  fun f =>
    if closed f then (Err ValueError, f)
    else if negb (readable f) then (Err UnsupportedOperation, f)
    else
      let d := skipn (cursor f) (content f) in
      (Ok d, set_cursor (cursor f + length d) f).

(** [fileobj.write(d)]; writing the empty byte string changes nothing. *)
Definition file_write (d : bytes) : M FileObj unit :=
  fun f =>
    if closed f then (Err ValueError, f)
    else if negb (writable f) then (Err UnsupportedOperation, f)
    else
      match d with
      | [] => (Ok tt, f)
      | _ :: _ =>
          (Ok tt, set_cursor (cursor f + length d)
                    (set_content (overwrite (cursor f) d (content f)) f))
      end.

(** [fileobj.seek(p)], absolute. *)
Definition file_seek (p : nat) : M FileObj unit :=
  fun f => if closed f then (Err ValueError, f) else (Ok tt, set_cursor p f).

(** [fileobj.seek(l, 1)], relative to the cursor. *)
Definition file_seek_cur (l : nat) : M FileObj unit :=
  fun f =>
    if closed f then (Err ValueError, f)
    else (Ok tt, set_cursor (cursor f + l) f).

Definition file_tell : M FileObj nat :=
  fun f => if closed f then (Err ValueError, f) else (Ok (cursor f), f).

Definition file_flush : M FileObj unit :=
  fun f => if closed f then (Err ValueError, f) else (Ok tt, f).

Definition file_close : M FileObj unit :=
  fun f => (Ok tt, set_closed true f).

(** ** The [struct] formats the module uses

    Big-endian ("!") standard-size packing.  [pack_*] raise [StructError]
    when the number does not fit the format; [unpack_*] raise it when the
    buffer does not have exactly the size of the format. *)

Definition Z_of_byte (b : byte) : Z := Z.of_N (Byte.to_N b).

Definition byte_of_Z (z : Z) : byte :=
  match Byte.of_N (Z.to_N (z mod 256)) with
  | Some b => b
  | None => x00
  end.

Fixpoint be_encode (k : nat) (v : Z) : bytes :=
  match k with
  | 0 => []
  | S k' => byte_of_Z (Z.shiftr v (8 * Z.of_nat k')) :: be_encode k' v
  end.

Definition be_decode (bs : bytes) : Z :=
  fold_left (fun acc b => (acc * 256 + Z_of_byte b)%Z) bs 0%Z.

(** Two's complement reading of a [k]-byte unsigned value. *)
Definition to_signed (k : nat) (v : Z) : Z :=
  if (v <? 2 ^ (8 * Z.of_nat k - 1))%Z then v else (v - 2 ^ (8 * Z.of_nat k))%Z.

(** IEEE 754 binary32 bit pattern to the float it denotes. *)
Definition binary32_of_bits (w : Z) : spec_float :=
  let s := Z.testbit w 31 in
  let e := Z.land (Z.shiftr w 23) 255 in
  let m := Z.land w (2 ^ 23 - 1) in
  if (e =? 0)%Z then
    if (m =? 0)%Z then S754_zero s else S754_finite s (Z.to_pos m) (-149)
  else if (e =? 255)%Z then
    if (m =? 0)%Z then S754_infinity s else S754_nan
  else S754_finite s (Z.to_pos (m + 2 ^ 23)) (e - 150).

(** The items a buffer lookup can yield: indexing an [mmap] with an integer
    gives an [int], every other lookup gives [bytes]. *)
Inductive pyitem : Type :=
| ItemInt (n : N)
| ItemBytes (bs : bytes).

Definition pack_unsigned (k : nat) (n : Z) : result bytes :=
  if ((0 <=? n) && (n <? 2 ^ (8 * Z.of_nat k)))%Z then Ok (be_encode k n)
  else Err StructError.

Definition pack_signed (k : nat) (n : Z) : result bytes :=
  if ((- 2 ^ (8 * Z.of_nat k - 1) <=? n) && (n <? 2 ^ (8 * Z.of_nat k - 1)))%Z
  then Ok (be_encode k n)
  else Err StructError.

Definition unpack_unsigned (k : nat) (d : pyitem) : result Z :=
  match d with
  | ItemInt _ => Err TypeError
  | ItemBytes bs =>
      if length bs =? k then Ok (be_decode bs) else Err StructError
  end.

Definition unpack_signed (k : nat) (d : pyitem) : result Z :=
  match d with
  | ItemInt _ => Err TypeError
  | ItemBytes bs =>
      if length bs =? k then Ok (to_signed k (be_decode bs))
      else Err StructError
  end.

Definition pack_sbyte : Z -> result bytes := pack_signed 1.
Definition pack_ushort : Z -> result bytes := pack_unsigned 2.
Definition pack_int : Z -> result bytes := pack_signed 4.
Definition pack_uint : Z -> result bytes := pack_unsigned 4.
Definition pack_ulong : Z -> result bytes := pack_unsigned 4.

Definition unpack_sbyte : pyitem -> result Z := unpack_signed 1.
Definition unpack_ushort : pyitem -> result Z := unpack_unsigned 2.
Definition unpack_int : pyitem -> result Z := unpack_signed 4.
Definition unpack_uint : pyitem -> result Z := unpack_unsigned 4.
Definition unpack_ulong : pyitem -> result Z := unpack_unsigned 4.

Definition unpack_float (d : pyitem) : result spec_float :=
  match d with
  | ItemInt _ => Err TypeError
  | ItemBytes bs =>
      if length bs =? 4 then Ok (binary32_of_bits (be_decode bs))
      else Err StructError
  end.

(** [ord(x)]: defined on a byte string of length one only. *)
Definition ord (x : pyitem) : result N :=
  match x with
  | ItemBytes [b] => Ok (Byte.to_N b)
  | _ => Err TypeError
  end.

(** [sys.maxsize] of a 64-bit interpreter: the largest size an object can
    be asked to have. *)
Definition maxsize : Z := 2 ^ 63 - 1.

(** [bytes(n)] for an integer [n].  The count is first taken as a size, which
    overflows outside [-maxsize - 1 .. maxsize]; a negative count is then
    refused; otherwise the result is [n] zero bytes (the model puts no bound
    on memory). *)
Definition bytes_of_int (n : Z) : result bytes :=
  if ((n <? - maxsize - 1) || (maxsize <? n))%Z then Err OverflowError
  else if (n <? 0)%Z then Err ValueError
  else Ok (repeat x00 (Z.to_nat n)).

(** *** Array formats *)

Inductive fmt : Type := Fb | FB | Fi | FI | Fh | FH | Fl | FL | Ff.

(** The characters of ["bBiIhHlLf"]. *)
Definition fmt_of_typecode (tc : ascii) : option fmt :=
  if Ascii.eqb tc "b" then Some Fb
  else if Ascii.eqb tc "B" then Some FB
  else if Ascii.eqb tc "i" then Some Fi
  else if Ascii.eqb tc "I" then Some FI
  else if Ascii.eqb tc "h" then Some Fh
  else if Ascii.eqb tc "H" then Some FH
  else if Ascii.eqb tc "l" then Some Fl
  else if Ascii.eqb tc "L" then Some FL
  else if Ascii.eqb tc "f" then Some Ff
  else None.

(** Size of one element in a "!" format. *)
Definition std_size (c : fmt) : nat :=
  match c with
  | Fb | FB => 1
  | Fh | FH => 2
  | Fi | FI | Fl | FL | Ff => 4
  end.

(** The values the typed reads return. *)
Inductive number : Type :=
| PyInt (z : Z)
| PyFloat (x : spec_float).

Inductive pyval : Type :=
| PyNum (x : number)
| PyTuple (xs : list number).

Definition decode_elem (c : fmt) (bs : bytes) : number :=
  match c with
  | Fb | Fh | Fi | Fl => PyInt (to_signed (std_size c) (be_decode bs))
  | FB | FH | FI | FL => PyInt (be_decode bs)
  | Ff => PyFloat (binary32_of_bits (be_decode bs))
  end.

Fixpoint decode_elems (c : fmt) (n : nat) (bs : bytes) : list number :=
  match n with
  | 0 => []
  | S n' =>
      decode_elem c (firstn (std_size c) bs)
        :: decode_elems c n' (skipn (std_size c) bs)
  end.

(** [Struct("!" + typecode * length).unpack(packed)]. *)
Definition unpack_array (tc : ascii) (len : nat) (d : pyitem)
  : result (list number) :=
  match fmt_of_typecode tc with
  | None => Err StructError
  | Some c =>
      match d with
      | ItemInt _ => Err TypeError
      | ItemBytes bs =>
          if length bs =? std_size c * len
          then Ok (decode_elems c len bs)
          else Err StructError
      end
  end.

(** ** Constants of [whoosh.system] *)

(** Modelled from the spec: [_INT_SIZE], [_USHORT_SIZE], [_ULONG_SIZE] and
    [_FLOAT_SIZE] are imported from [alfanous.Support.whoosh.system], which is
    not among the sources; the spec gives the sizes of the signed byte,
    unsigned short, signed int, unsigned int, unsigned long and float as
    1/2/4/4/4/4 bytes. *)
Definition _INT_SIZE : nat := 4.
Definition _USHORT_SIZE : nat := 2.
Definition _ULONG_SIZE : nat := 4.
Definition _FLOAT_SIZE : nat := 4.

(** ** Helpers of [whoosh.util] *)

(** Modelled from the spec: [varint] is imported from
    [alfanous.Support.whoosh.util], which is not among the sources.  The spec:
    "a self-delimiting multi-byte encoding where each byte carries 7 payload
    bits and a continuation flag in the top bit, least-significant group
    first".  [fuel] bounds the number of groups. *)
Fixpoint varint_groups (fuel : nat) (i : N) : bytes :=
  match fuel with
  | 0 => []
  | S fuel' =>
      if (i <? 128)%N then [byte_of_Z (Z.of_N i)]
      else byte_of_Z (Z.of_N (N.lor (N.land i 127) 128))
             :: varint_groups fuel' (N.shiftr i 7)
  end.

Definition varint (i : N) : bytes := varint_groups (S (N.to_nat (N.log2 i))) i.

(** Modelled from the spec: [read_varint] is imported from
    [alfanous.Support.whoosh.util], which is not among the sources.  It takes
    bytes one at a time from its read function while the continuation flag is
    set, least-significant group first; [decode_varint] is that loop over the
    bytes ahead of the cursor and returns the value with the number of bytes
    taken, or [None] when the bytes end inside a number. *)
Fixpoint decode_varint (bs : bytes) : option (N * nat) :=
  match bs with
  | [] => None
  | b :: rest =>
      let v := Byte.to_N b in
      if (v <? 128)%N then Some (v, 1)
      else
        match decode_varint rest with
        | Some (hi, k) => Some (N.lor (N.land v 127) (N.shiftl hi 7), S k)
        | None => None
        end
  end.

(** Taking the last byte there is and asking for one more makes [ord] fail
    on the empty byte string. *)
Definition util_read_varint : M FileObj N :=
  fun f =>
    if closed f then (Err ValueError, f)
    else if negb (readable f) then (Err UnsupportedOperation, f)
    else
      match decode_varint (skipn (cursor f) (content f)) with
      | Some (v, k) => (Ok v, set_cursor (cursor f + k) f)
      | None =>
          (Err TypeError,
           set_cursor (cursor f + length (skipn (cursor f) (content f))) f)
      end.

(** ** Python strings: text or bytes *)

Inductive pystring : Type :=
| PyStr (codepoints : list N)
| PyBytes (bs : bytes).

Definition len (s : pystring) : nat :=
  match s with
  | PyStr cs => length cs
  | PyBytes bs => length bs
  end.

Definition byte_of_N (n : N) : byte := byte_of_Z (Z.of_N n).

Definition utf8_codepoint (c : N) : option bytes :=
  (if c <? 128 then Some [byte_of_N c]
   else if c <? 2048 then
     Some [byte_of_N (192 + c / 64); byte_of_N (128 + c mod 64)]
   else if c <? 65536 then
     if (55296 <=? c) && (c <=? 57343) then None
     else Some [byte_of_N (224 + c / 4096);
                byte_of_N (128 + (c / 64) mod 64);
                byte_of_N (128 + c mod 64)]
   else if c <? 1114112 then
     Some [byte_of_N (240 + c / 262144);
           byte_of_N (128 + (c / 4096) mod 64);
           byte_of_N (128 + (c / 64) mod 64);
           byte_of_N (128 + c mod 64)]
   else None)%N.

(** [s.encode("utf-8")]. *)
Fixpoint utf8_encode (cs : list N) : result bytes :=
  match cs with
  | [] => Ok []
  | c :: rest =>
      match utf8_codepoint c, utf8_encode rest with
      | Some b, Ok bs => Ok (b ++ bs)
      | _, _ => Err UnicodeEncodeError
      end
  end.

(** ** The StructFile instance *)

(** The mapped view: a real memory mapping of the first [maplen] bytes of
    the file, or the [fakemap] object of [_setup_fake_map]. *)
Inductive mapview : Type :=
| RealMap (maplen : nat)
| FakeMap.

(** A close hook is known by its name; calling it is recorded (see [World]). *)
Definition hook := nat.

(** The attributes of an instance.  [size] and [map] are [None] while the
    attribute does not exist. *)
Record StructFile : Type := mkStructFile {
  file : FileObj;
  _name : option string;
  onclose : option hook;
  is_closed : bool;
  size : option nat;
  map : option mapview
}.

Definition set_file (f : FileObj) (sf : StructFile) : StructFile :=
  mkStructFile f (_name sf) (onclose sf) (is_closed sf) (size sf) (map sf).

Definition set_map (m : option mapview) (sf : StructFile) : StructFile :=
  mkStructFile (file sf) (_name sf) (onclose sf) (is_closed sf) (size sf) m.

Definition set_is_closed (b : bool) (sf : StructFile) : StructFile :=
  mkStructFile (file sf) (_name sf) (onclose sf) b (size sf) (map sf).

(** A method of [self.file] run on the instance. *)
Definition on_file {A : Type} (m : M FileObj A) : M StructFile A :=
  fun sf => let (r, f') := m (file sf) in (r, set_file f' sf).

(** [read], [write], [tell] and [seek] are the wrapped file's own methods,
    copied onto the instance by the constructor. *)
Definition read (n : nat) : M StructFile bytes := on_file (file_read n).
Definition write (d : bytes) : M StructFile unit := on_file (file_write d).
Definition tell : M StructFile nat := on_file file_tell.
Definition seek (p : nat) : M StructFile unit := on_file (file_seek p).

(** *** Construction *)

(** ["r" in fileobj.mode]. *)
Fixpoint contains_r (s : string) : bool :=
  match s with
  | EmptyString => false
  | String c s' => Ascii.eqb c "r" || contains_r s'
  end.

Definition read_mode (fileobj : FileObj) : bool :=
  match mode fileobj with
  | Some m => contains_r m
  | None => false
  end.

(** [os.fstat(fileobj.fileno()).st_size]; a handle without a descriptor
    raises.  The constructor is handed a handle as it was opened, with
    nothing waiting in its buffer: the size of the file is the length of
    what the handle reads. *)
Definition fstat_size (fileobj : FileObj) : result nat :=
  match fileno fileobj with
  | Some _ => Ok (length (content fileobj))
  | None => Err UnsupportedOperation
  end.

Definition _setup_fake_map (sf : StructFile) : StructFile :=
  set_map (Some FakeMap) sf.

(** [mmap_oserror] is the answer of the operating system: [true] when
    [mmap.mmap] raises [OSError]. *)
Definition __init__ (mmap_oserror : bool) (fileobj : FileObj)
    (name : option string) (onclose : option hook) (mapped : bool)
  : result StructFile :=
  let self := mkStructFile fileobj name onclose false None None in
  if mapped && read_mode fileobj then
    match fstat_size fileobj with
    | Err e => Err e
    | Ok sz =>
        let self := mkStructFile fileobj name onclose false (Some sz) None in
        if 0 <? sz then
          if mmap_oserror then Ok (_setup_fake_map self)
          else Ok (set_map (Some (RealMap sz)) self)
        else Ok (_setup_fake_map self)
    end
  else Ok (_setup_fake_map self).

(** *** The mapped view *)

Inductive index : Type :=
| At (i : nat)
| Slice (start stop : nat).

(** [fakemap.__getitem__]. *)
Definition fakemap_getitem (sl : index) : M StructFile pyitem :=
  match sl with
  | At i => seek i ;; d <- read 1 ;; ret (ItemBytes d)
  | Slice start stop =>
      seek start ;;
      d <- (if stop <? start then on_file file_read_all
            else read (stop - start)) ;;
      ret (ItemBytes d)
  end.

(** A real mapping shows the file as the operating system holds it, not as
    the handle reads it: a write still in the handle's buffer is not in it.
    When the buffer is emptied is the business of the I/O layer; the model
    does not say.  [on_disk] stands for the bytes the file holds when the
    mapping is looked up, and every property below holds whatever they
    are.  A lookup in a real mapping leaves the instance as it was, so the
    state after a call never depends on [on_disk]; a property that compares
    two lookups in a real mapping is stated where the handle cannot have
    changed the file between them. *)
Section FileOnDisk.

Variable on_disk : bytes.

(** Indexing a real mapping of the first [maplen] bytes of the file. *)
Definition mmap_getitem (maplen : nat) (sl : index) : result pyitem :=
  let view := firstn maplen on_disk in
  match sl with
  | At i =>
      match nth_error view i with
      | Some b => Ok (ItemInt (Byte.to_N b))
      | None => Err IndexError
      end
  | Slice start stop => Ok (ItemBytes (firstn (stop - start) (skipn start view)))
  end.

(** [self.map[sl]]. *)
Definition map_getitem (sl : index) : M StructFile pyitem :=
  fun sf =>
    match map sf with
    | None => (Err AttributeError, sf)
    | Some (RealMap maplen) => (mmap_getitem maplen sl, sf)
    | Some FakeMap => fakemap_getitem sl sf
    end.

(** *** Lifecycle *)

Definition flush : M StructFile unit :=
  fun sf =>
    if has_flush (file sf) then on_file file_flush sf else (Ok tt, sf).

(** The instance together with the record of the close hooks called so far,
    each with the instance as the hook saw it. *)
Record World : Type := mkWorld {
  inst : StructFile;
  hook_calls : list (hook * StructFile)
}.

Definition on_inst {A : Type} (m : M StructFile A) : M World A :=
  fun w => let (r, sf') := m (inst w) in (r, mkWorld sf' (hook_calls w)).

(** [del self.map]. *)
Definition del_map : M World unit :=
  fun w =>
    match map (inst w) with
    | None => (Err AttributeError, w)
    | Some _ => (Ok tt, mkWorld (set_map None (inst w)) (hook_calls w))
    end.

(** [if self.onclose: self.onclose(self)]. *)
Definition call_onclose : M World unit :=
  fun w =>
    match onclose (inst w) with
    | Some h => (Ok tt, mkWorld (inst w) (hook_calls w ++ [(h, inst w)]))
    | None => (Ok tt, w)
    end.

(** [if hasattr(self.file, "close"): self.file.close()]. *)
Definition close_file : M StructFile unit :=
  fun sf =>
    if has_close (file sf) then on_file file_close sf else (Ok tt, sf).

Definition close : M World unit :=
  del_map ;;
  call_onclose ;;
  on_inst close_file ;;
  on_inst (fun sf => (Ok tt, set_is_closed true sf)).

(** *** Strings, variable-length integers and bytes *)

Definition write_varint (i : N) : M StructFile unit :=
  on_file (file_write (varint i)).

Definition read_varint : M StructFile N := on_file util_read_varint.

(** [self.file.write(s)] on the binary file: text is refused. *)
Definition file_write_pystring (s : pystring) : M FileObj unit :=
  match s with
  | PyBytes bs => file_write bs
  | PyStr _ =>
      fun f =>
        if closed f then (Err ValueError, f)
        else if negb (writable f) then (Err UnsupportedOperation, f)
        else (Err TypeError, f)
  end.

Definition write_string (s : pystring) : M StructFile unit :=
  write_varint (N.of_nat (len s)) ;;
  on_file (file_write_pystring s).

Definition write_string2 (s : pystring) : M StructFile unit :=
  s <- match s with
       | PyStr cs => lift_result (utf8_encode cs)
       | PyBytes bs => ret bs
       end ;;
  h <- lift_result (pack_ushort (Z.of_nat (length s))) ;;
  write (h ++ s).

Definition read_ushort : M StructFile Z :=
  d <- on_file (file_read _USHORT_SIZE) ;;
  lift_result (unpack_ushort (ItemBytes d)).

Definition read_string : M StructFile pystring :=
  n <- read_varint ;;
  d <- on_file (file_read (N.to_nat n)) ;;
  ret (PyBytes d).

Definition read_string2 : M StructFile pystring :=
  l <- read_ushort ;;
  d <- read (Z.to_nat l) ;;
  ret (PyBytes d).

Definition skip_string : M StructFile unit :=
  l <- read_varint ;;
  on_file (file_seek_cur (N.to_nat l)).

Definition write_byte (n : Z) : M StructFile unit :=
  d <- lift_result (bytes_of_int n) ;;
  on_file (file_write d).

Definition read_byte : M StructFile N :=
  d <- on_file (file_read 1) ;;
  lift_result (ord (ItemBytes d)).

Definition get_byte (position : nat) : M StructFile N :=
  x <- map_getitem (At position) ;;
  lift_result (ord x).

(** *** Fixed-width numbers, sequential *)

Definition write_packed (p : result bytes) : M StructFile unit :=
  d <- lift_result p ;;
  on_file (file_write d).

Definition write_sbyte (n : Z) : M StructFile unit := write_packed (pack_sbyte n).
Definition write_int (n : Z) : M StructFile unit := write_packed (pack_int n).
Definition write_uint (n : Z) : M StructFile unit := write_packed (pack_uint n).
Definition write_ushort (n : Z) : M StructFile unit := write_packed (pack_ushort n).
Definition write_ulong (n : Z) : M StructFile unit := write_packed (pack_ulong n).

Definition read_sbyte : M StructFile Z :=
  d <- on_file (file_read 1) ;;
  lift_result (unpack_sbyte (ItemBytes d)).

(** The [IOError] of [read_int] carries what its message interpolates:
    [self._name], [self.tell()], [data], [_INT_SIZE] and [len(data)]. *)
Definition read_int : M StructFile Z :=
  data <- on_file (file_read _INT_SIZE) ;;
  if length data <? _INT_SIZE then
    fun self =>
      (pos <- tell ;;
       raise (IOError (_name self) pos data _INT_SIZE (length data))) self
  else lift_result (unpack_int (ItemBytes data)).

Definition read_uint : M StructFile Z :=
  d <- on_file (file_read _INT_SIZE) ;;
  lift_result (unpack_uint (ItemBytes d)).

Definition read_ulong : M StructFile Z :=
  d <- on_file (file_read _ULONG_SIZE) ;;
  lift_result (unpack_ulong (ItemBytes d)).

Definition read_float : M StructFile spec_float :=
  d <- on_file (file_read _FLOAT_SIZE) ;;
  lift_result (unpack_float (ItemBytes d)).

(** *** Fixed-width numbers, through the mapped view *)

Definition get_sbyte (position : nat) : M StructFile Z :=
  d <- map_getitem (Slice position (position + 1)) ;;
  lift_result (unpack_sbyte d).

Definition get_int (position : nat) : M StructFile Z :=
  d <- map_getitem (Slice position (position + _INT_SIZE)) ;;
  lift_result (unpack_int d).

Definition get_uint (position : nat) : M StructFile Z :=
  d <- map_getitem (Slice position (position + _INT_SIZE)) ;;
  lift_result (unpack_uint d).

Definition get_ushort (position : nat) : M StructFile Z :=
  d <- map_getitem (Slice position (position + _USHORT_SIZE)) ;;
  lift_result (unpack_ushort d).

Definition get_ulong (position : nat) : M StructFile Z :=
  d <- map_getitem (Slice position (position + _ULONG_SIZE)) ;;
  lift_result (unpack_ulong d).

Definition get_float (position : nat) : M StructFile spec_float :=
  d <- map_getitem (Slice position (position + _FLOAT_SIZE)) ;;
  lift_result (unpack_float d).

(** *** Arrays

    [_SIZEMAP] is filled with [calcsize(typecode)], the sizes of the
    platform's C types: the size of a C long is the platform's, the
    others are the same everywhere. *)
Section Platform.

Variable native_long_size : nat.

Definition native_size (c : fmt) : nat :=
  match c with
  | Fb | FB => 1
  | Fh | FH => 2
  | Fi | FI | Ff => 4
  | Fl | FL => native_long_size
  end.

(** [_SIZEMAP[typecode]]; [None] is the [KeyError]. *)
Definition _SIZEMAP (typecode : ascii) : option nat :=
  option_map native_size (fmt_of_typecode typecode).

Definition sizemap_getitem {S : Type} (typecode : ascii) : M S nat :=
  match _SIZEMAP typecode with
  | Some n => ret n
  | None => raise KeyError
  end.

Definition read_array (typecode : ascii) (length : nat)
  : M StructFile (list number) :=
  sz <- sizemap_getitem typecode ;;
  packed <- on_file (file_read (sz * length)) ;;
  lift_result (unpack_array typecode length (ItemBytes packed)).

(** [self.map] is looked up before the slice bounds are computed. *)
Definition get_array (position : nat) (typecode : ascii) (length : nat)
  : M StructFile (list number) :=
  fun self =>
    match map self with
    | None => (Err AttributeError, self)
    | Some _ =>
        (sz <- sizemap_getitem typecode ;;
         d <- map_getitem (Slice position (position + sz * length)) ;;
         lift_result (unpack_array typecode length d)) self
    end.

End Platform.

(** ** The typed reads, by type *)

(** The fixed-width types that have both a sequential and a mapped read. *)
Inductive ftype : Type :=
| Tsbyte
| Tint
| Tuint
| Tushort
| Tulong
| Tfloat
| Tarray (typecode : ascii) (length : nat).

Definition int_value {S : Type} (m : M S Z) : M S pyval :=
  x <- m ;; ret (PyNum (PyInt x)).

Definition float_value {S : Type} (m : M S spec_float) : M S pyval :=
  x <- m ;; ret (PyNum (PyFloat x)).

Definition tuple_value {S : Type} (m : M S (list number)) : M S pyval :=
  xs <- m ;; ret (PyTuple xs).

(** [read_X()]. *)
Definition read_typed (native_long_size : nat) (t : ftype) : M StructFile pyval :=
  match t with
  | Tsbyte => int_value read_sbyte
  | Tint => int_value read_int
  | Tuint => int_value read_uint
  | Tushort => int_value read_ushort
  | Tulong => int_value read_ulong
  | Tfloat => float_value read_float
  | Tarray tc n => tuple_value (read_array native_long_size tc n)
  end.

(** [get_X(position)]. *)
Definition get_typed (native_long_size : nat) (t : ftype) (position : nat)
  : M StructFile pyval :=
  match t with
  | Tsbyte => int_value (get_sbyte position)
  | Tint => int_value (get_int position)
  | Tuint => int_value (get_uint position)
  | Tushort => int_value (get_ushort position)
  | Tulong => int_value (get_ulong position)
  | Tfloat => float_value (get_float position)
  | Tarray tc n => tuple_value (get_array native_long_size position tc n)
  end.

(** The number of bytes a "!" format of the type takes. *)
Definition width (t : ftype) : nat :=
  match t with
  | Tsbyte => 1
  | Tushort => 2
  | Tint | Tuint | Tulong | Tfloat => 4
  | Tarray tc n =>
      match fmt_of_typecode tc with
      | Some c => std_size c * n
      | None => 0
      end
  end.

(** ** Calls on an instance

    Every call a client can make, with its arguments.  [ThroughFile] stands
    for the methods that do nothing but hand [self.file] to a packer or to
    the pickle module ([write_float], [write_array], [write_pickle],
    [read_pickle], [write_8bitfloat], [read_8bitfloat]): whatever they do,
    they do it to the wrapped file. *)
Inductive call : Type :=
| Flush | Close
| Read (n : nat) | Write (d : bytes) | Tell | Seek (p : nat)
| WriteString (s : pystring) | WriteString2 (s : pystring)
| ReadString | ReadString2 | SkipString
| WriteVarint (i : N) | ReadVarint
| WriteByte (n : Z) | ReadByte | GetByte (p : nat)
| WriteSbyte (n : Z) | WriteInt (n : Z) | WriteUint (n : Z)
| WriteUshort (n : Z) | WriteUlong (n : Z)
| ReadTyped (t : ftype) | GetTyped (t : ftype) (p : nat)
| MapItem (sl : index)
| ThroughFile (m : FileObj -> FileObj).

Definition after {S A : Type} (m : M S A) (s : S) : S := snd (m s).

Definition outcome {S A : Type} (m : M S A) (s : S) : result A := fst (m s).

Section Calls.

Variable native_long_size : nat.

(** The instance after a call other than [close]. *)
Definition method (c : call) : StructFile -> StructFile :=
  match c with
  | Flush => after flush
  | Close => fun sf => sf
  | Read n => after (read n)
  | Write d => after (write d)
  | Tell => after tell
  | Seek p => after (seek p)
  | WriteString s => after (write_string s)
  | WriteString2 s => after (write_string2 s)
  | ReadString => after read_string
  | ReadString2 => after read_string2
  | SkipString => after skip_string
  | WriteVarint i => after (write_varint i)
  | ReadVarint => after read_varint
  | WriteByte n => after (write_byte n)
  | ReadByte => after read_byte
  | GetByte p => after (get_byte p)
  | WriteSbyte n => after (write_sbyte n)
  | WriteInt n => after (write_int n)
  | WriteUint n => after (write_uint n)
  | WriteUshort n => after (write_ushort n)
  | WriteUlong n => after (write_ulong n)
  | ReadTyped t => after (read_typed native_long_size t)
  | GetTyped t p => after (get_typed native_long_size t p)
  | MapItem sl => after (map_getitem sl)
  | ThroughFile m => fun sf => set_file (m (file sf)) sf
  end.

(** The world after a call. *)
Definition exec (c : call) (w : World) : World :=
  match c with
  | Close => after close w
  | _ => mkWorld (method c (inst w)) (hook_calls w)
  end.

Definition run (cs : list call) (w : World) : World :=
  fold_left (fun w c => exec c w) cs w.

End Calls.

(** The calls that go through the mapped view. *)
Definition mapped_access (c : call) : bool :=
  match c with
  | GetByte _ | GetTyped _ _ | MapItem _ => true
  | _ => false
  end.


(** The sequential reads and the sequential writes. *)
Definition sequential_read (c : call) : bool :=
  match c with
  | Read _ | ReadString | ReadString2 | SkipString | ReadVarint | ReadByte
  | ReadTyped _ => true
  | _ => false
  end.


(** Where the synthetic mapping leaves the cursor: at the first byte it
    asked for, advanced by the bytes it got. *)
Definition index_start (sl : index) : nat :=
  match sl with
  | At i => i
  | Slice start _ => start
  end.

Definition fake_data (sl : index) (c : bytes) : bytes :=
  match sl with
  | At i => firstn 1 (skipn i c)
  | Slice start stop =>
      if stop <? start then skipn start c
      else firstn (stop - start) (skipn start c)
  end.

(** ** Conditions on an instance and relations between file states *)

(** The wrapped file is open and can be read. *)
Definition can_read (f : FileObj) : bool := negb (closed f) && readable f.

(** The wrapped file is open and can be read and written. *)
Definition read_write (f : FileObj) : bool :=
  negb (closed f) && readable f && writable f.

(** The instance has its mapped view and, when it is a real mapping, the
    mapping spans the whole file (the file did not grow after the instance
    was constructed). *)
Definition view_current (sf : StructFile) : bool :=
  match map sf with
  | Some (RealMap maplen) => length (content (file sf)) <=? maplen
  | Some FakeMap => true
  | None => false
  end.

(** Nothing but the cursor differs. *)
Definition moved_cursor (f f' : FileObj) : Prop :=
  f' = set_cursor (cursor f') f.

(** The cursor and the file went forward only: every byte that was before
    the cursor and inside the file is still there. *)
Definition went_forward (f f' : FileObj) : Prop :=
  closed f' = closed f /\ readable f' = readable f /\
  cursor f <= cursor f' /\
  length (content f) <= length (content f') /\
  forall i, i < cursor f -> i < length (content f) ->
            nth_error (content f') i = nth_error (content f) i.

(** A method that leaves every attribute of the instance but [file] alone,
    and takes the file from a state to one related by [R]. *)
Definition through_file {A : Type} (R : FileObj -> FileObj -> Prop)
    (m : M StructFile A) : Prop :=
  forall sf, exists f', after m sf = set_file f' sf /\ R (file sf) f'.

Definition any_change (f f' : FileObj) : Prop := True.

(** ** The worlds a client can get to

    An instance is constructed around a handle, no hook called yet, and then
    receives calls. *)
Inductive reachable (native_long_size : nat) : World -> Prop :=
| reach_init (mmap_oserror : bool) (fileobj : FileObj) (name : option string)
    (onclose : option hook) (mapped : bool) (sf : StructFile) :
    __init__ mmap_oserror fileobj name onclose mapped = Ok sf ->
    reachable native_long_size (mkWorld sf [])
| reach_call (c : call) (w : World) :
    reachable native_long_size w ->
    reachable native_long_size (exec native_long_size c w).

(** ** Handles used in the examples *)

(** [io.BytesIO(c)]: readable, writable, no [mode] attribute and no file
    descriptor. *)
Definition BytesIO (c : bytes) : FileObj :=
  mkFile c 0 false true true None None true true.

(** [open(path, "rb")] on a file holding [c]. *)
Definition open_rb (c : bytes) : FileObj :=
  mkFile c 0 false true false (Some "rb"%string) (Some 3) true true.

(** [open(path, "r+b")] on a file holding [c]. *)
Definition open_rwb (c : bytes) : FileObj :=
  mkFile c 0 false true true (Some "r+b"%string) (Some 3) true true.

(** The handle [ZipFile.open(name)] gives for a member holding [c]: its
    [mode] is ["r"] and it has no file descriptor. *)
Definition zip_member (c : bytes) : FileObj :=
  mkFile c 0 false true false (Some "r"%string) None true true.

(** The instance [StructFile(fileobj)] gets the synthetic mapping when the
    handle is not in a read mode. *)
Definition unmapped (fileobj : FileObj) : StructFile :=
  mkStructFile fileobj None None false None (Some FakeMap).

(** The instance [StructFile(fileobj)] gets a real mapping of the whole
    file when the handle is in a read mode, the file is not empty and the
    operating system grants the mapping. *)
Definition mmapped (fileobj : FileObj) : StructFile :=
  mkStructFile fileobj None None false
    (Some (length (content fileobj)))
    (Some (RealMap (length (content fileobj)))).

(** The same with a close hook registered. *)
Definition hooked (fileobj : FileObj) (h : hook) : StructFile :=
  mkStructFile fileobj None (Some h) false None (Some FakeMap).

(** ** Values used in the examples *)

(** [b"abc"]. *)
Definition abc : bytes := [x61; x62; x63].

(** [b"\xff\xff\xff\xfe"]: the int -2. *)
Definition four : bytes := [xff; xff; xff; xfe].


(** A byte string of 65536 zero bytes. *)
Definition long_bytes : pystring := PyBytes (repeat x00 (N.to_nat 65536)).

(** The text string ["a"]. *)
Definition text_a : pystring := PyStr [97%N].

(** ** Further notions used in the properties *)

(** A number of the kind and in the range an element of the format has. *)
Definition fits (c : fmt) (x : number) : Prop :=
  match c, x with
  | (Fb | Fh | Fi | Fl), PyInt z =>
      (- 2 ^ (8 * Z.of_nat (std_size c) - 1) <= z
       < 2 ^ (8 * Z.of_nat (std_size c) - 1))%Z
  | (FB | FH | FI | FL), PyInt z =>
      (0 <= z < 2 ^ (8 * Z.of_nat (std_size c)))%Z
  | Ff, PyFloat _ => True
  | _, _ => False
  end.

(** A real mapping shows, over its length, the bytes the handle reads: no
    write that would change them is waiting in the handle's buffer.  The
    synthetic mapping reads through the handle and always does. *)
Definition shows_handle_bytes (sf : StructFile) : Prop :=
  match map sf with
  | Some (RealMap maplen) =>
      firstn maplen on_disk = firstn maplen (content (file sf))
  | _ => True
  end.


(** The instance after a read took all that was left of the file: the
    cursor has moved past the bytes that followed it. *)
Definition drained (sf : StructFile) : StructFile :=
  set_file
    (set_cursor
       (cursor (file sf)
        + length (skipn (cursor (file sf)) (content (file sf))))
       (file sf))
    sf.

(** The calls that neither write, nor close, nor hand the file to code
    outside the module. *)
Definition non_writing (c : call) : bool :=
  match c with
  | Flush | Tell | Seek _ => true
  | _ => sequential_read c || mapped_access c
  end.

(** The bytes [pre] were written from offset [p] on, the cursor is right
    after them, and the file is open for reading and writing. *)
Definition written_from (p : nat) (pre : bytes) (sf : StructFile) : Prop :=
  read_write (file sf) = true /\
  cursor (file sf) = p + length pre /\
  exists rest, skipn p (content (file sf)) = pre ++ rest.

(** The bytes [d] are ahead of the cursor, and the file is open and
    readable. *)
Definition ahead (d : bytes) (sf : StructFile) : Prop :=
  can_read (file sf) = true /\
  exists rest, skipn (cursor (file sf)) (content (file sf)) = d ++ rest.

(** * Properties *)

(** ** Bytes and lists *)

Lemma to_N_byte_of_Z (z : Z) :
  Byte.to_N (byte_of_Z z) = Z.to_N (z mod 256).
Proof.
  unfold byte_of_Z.
  destruct (Byte.of_N (Z.to_N (z mod 256))) as [b|] eqn:E.
  - now apply Byte.to_of_N.
  - apply Byte.of_N_None_iff in E.
    pose proof (Z.mod_pos_bound z 256 eq_refl). lia.
Qed.

Lemma to_N_byte_of_N (n : N) : (n < 256)%N -> Byte.to_N (byte_of_Z (Z.of_N n)) = n.
Proof.
  intros H. rewrite to_N_byte_of_Z, Z.mod_small by lia. apply N2Z.id.
Qed.

Lemma skipn_overwrite (p : nat) (d c : bytes) :
  skipn p (overwrite p d c) = d ++ skipn (p + length d) c.
Proof.
  unfold overwrite. rewrite app_assoc.
  rewrite skipn_app.
  assert (L : length (firstn p c ++ repeat x00 (p - length c)) = p).
  { rewrite length_app, length_firstn, repeat_length. lia. }
  rewrite L, Nat.sub_diag. simpl.
  rewrite skipn_all2 by lia. reflexivity.
Qed.

(** ** The variable-length integer format *)

Lemma varint_group_split (i : N) :
  N.lor (N.land (N.lor (N.land i 127) 128) 127) (N.shiftl (N.shiftr i 7) 7) = i.
Proof.
  apply N.bits_inj. intros k.
  rewrite N.lor_spec, N.land_spec, N.lor_spec, N.land_spec.
  destruct (N.ltb_spec k 7) as [Hk|Hk].
  - rewrite N.shiftl_spec_low by assumption.
    assert (E : N.testbit 128 k = false).
    { change 128%N with (2 ^ 7)%N. rewrite N.pow2_bits_eqb.
      apply N.eqb_neq. lia. }
    assert (F : N.testbit 127 k = true).
    { change 127%N with (N.ones 7). apply N.ones_spec_low. assumption. }
    rewrite E, F. destruct (N.testbit i k); reflexivity.
  - rewrite N.shiftl_spec_high' by assumption.
    rewrite N.shiftr_spec'. replace (k - 7 + 7)%N with k by lia.
    assert (F : N.testbit 127 k = false).
    { change 127%N with (N.ones 7). apply N.ones_spec_high. assumption. }
    rewrite F. rewrite !andb_false_r. reflexivity.
Qed.

Lemma varint_group_disjoint (i : N) : N.land (N.land i 127) 128 = 0%N.
Proof.
  rewrite <- N.land_assoc. change (N.land 127 128) with 0%N. apply N.land_0_r.
Qed.

Lemma varint_group_bound (i : N) : (N.lor (N.land i 127) 128 < 256)%N.
Proof.
  assert (H : (N.land i 127 < 128)%N).
  { change 127%N with (N.ones 7). rewrite N.land_ones. apply N.mod_lt. lia. }
  rewrite <- N.lxor_lor, <- N.add_nocarry_lxor by apply varint_group_disjoint.
  lia.
Qed.

Lemma varint_groups_step (fuel : nat) (i : N) :
  varint_groups (S fuel) i
  = if (i <? 128)%N then [byte_of_Z (Z.of_N i)]
    else byte_of_Z (Z.of_N (N.lor (N.land i 127) 128))
           :: varint_groups fuel (N.shiftr i 7).
Proof. reflexivity. Qed.

Lemma decode_varint_groups (rest : bytes) (fuel : nat) :
  forall i : N,
    (i < 2 ^ (7 * N.of_nat fuel + 7))%N ->
    decode_varint (varint_groups (S fuel) i ++ rest)
    = Some (i, length (varint_groups (S fuel) i)).
Proof.
  induction fuel as [|fuel IH]; intros i Hi;
    rewrite varint_groups_step; destruct (N.ltb_spec i 128) as [Hb|Hb].
  - cbn [app decode_varint length]. rewrite to_N_byte_of_N by lia.
    apply N.ltb_lt in Hb. rewrite Hb. reflexivity.
  - change (2 ^ (7 * N.of_nat 0 + 7))%N with 128%N in Hi. lia.
  - cbn [app decode_varint length]. rewrite to_N_byte_of_N by lia.
    apply N.ltb_lt in Hb. rewrite Hb. reflexivity.
  - cbn [app decode_varint length].
    rewrite to_N_byte_of_N by apply varint_group_bound.
    assert (Hc : (N.lor (N.land i 127) 128 <? 128)%N = false).
    { apply N.ltb_ge.
      rewrite <- N.lxor_lor, <- N.add_nocarry_lxor
        by apply varint_group_disjoint.
      lia. }
    rewrite Hc, IH.
    + rewrite varint_group_split. reflexivity.
    + rewrite N.shiftr_div_pow2. apply N.Div0.div_lt_upper_bound.
      rewrite <- N.pow_add_r.
      replace (7 + (7 * N.of_nat fuel + 7))%N
        with (7 * N.of_nat (S fuel) + 7)%N by lia.
      exact Hi.
Qed.

Lemma varint_fuel_enough (i : N) :
  (i < 2 ^ (7 * N.of_nat (N.to_nat (N.log2 i)) + 7))%N.
Proof.
  rewrite N2Nat.id.
  destruct (N.eq_dec i 0) as [->|Hnz].
  - reflexivity.
  - destruct (N.log2_spec i) as [_ Hlt]; [lia|].
    eapply N.lt_le_trans; [exact Hlt|].
    apply N.pow_le_mono_r; lia.
Qed.

Lemma decode_varint_varint (i : N) (rest : bytes) :
  decode_varint (varint i ++ rest) = Some (i, length (varint i)).
Proof.
  unfold varint. apply decode_varint_groups, varint_fuel_enough.
Qed.

Lemma varint_cons (i : N) : exists b bs, varint i = b :: bs.
Proof.
  unfold varint. rewrite varint_groups_step.
  destruct (i <? 128)%N; eauto.
Qed.

(** ** The monad *)





(** ** Setters *)

Lemma set_file_same (sf : StructFile) : set_file (file sf) sf = sf.
Proof. destruct sf; reflexivity. Qed.

Lemma set_cursor_same (f : FileObj) : set_cursor (cursor f) f = f.
Proof. destruct f; reflexivity. Qed.

(** ** What a method may change *)

Section ThroughFile.

Variable R : FileObj -> FileObj -> Prop.
Hypothesis R_refl : forall f, R f f.
Hypothesis R_trans : forall f g h, R f g -> R g h -> R f h.

Lemma through_file_unchanged {A : Type} (m : M StructFile A) :
  (forall sf, after m sf = sf) -> through_file R m.
Proof.
  intros H sf. exists (file sf). rewrite H, set_file_same. auto.
Qed.

Lemma through_file_ret {A : Type} (a : A) : through_file R (ret a).
Proof. apply through_file_unchanged. reflexivity. Qed.

Lemma through_file_raise {A : Type} (e : exn) : through_file R (@raise _ A e).
Proof. apply through_file_unchanged. reflexivity. Qed.

Lemma through_file_lift {A : Type} (r : result A) :
  through_file R (lift_result r).
Proof. apply through_file_unchanged. reflexivity. Qed.

Lemma through_file_bind {A B : Type} (m : M StructFile A)
    (k : A -> M StructFile B) :
  through_file R m -> (forall a, through_file R (k a)) ->
  through_file R (x <- m ;; k x).
Proof.
  intros Hm Hk sf. destruct (Hm sf) as [f1 [E1 R1]].
  unfold after, bind in *. destruct (m sf) as [[a|e] s1]; simpl in E1; subst s1.
  - destruct (Hk a (set_file f1 sf)) as [f2 [E2 R2]].
    unfold after in E2. exists f2. rewrite E2. split; [reflexivity|].
    simpl in R2. eauto.
  - exists f1. auto.
Qed.

Lemma through_file_on_file {A : Type} (m : M FileObj A) :
  (forall f, R f (after m f)) -> through_file R (on_file m).
Proof.
  intros H sf. exists (after m (file sf)). split; [|apply H].
  unfold after, on_file. destruct (m (file sf)); reflexivity.
Qed.

End ThroughFile.

Lemma moved_cursor_refl (f : FileObj) : moved_cursor f f.
Proof. unfold moved_cursor. now rewrite set_cursor_same. Qed.

Lemma moved_cursor_trans (f g h : FileObj) :
  moved_cursor f g -> moved_cursor g h -> moved_cursor f h.
Proof.
  unfold moved_cursor. intros Hg Hh. rewrite Hh at 1. rewrite Hg. reflexivity.
Qed.

Lemma moved_cursor_set (p : nat) (f : FileObj) : moved_cursor f (set_cursor p f).
Proof. reflexivity. Qed.

Lemma went_forward_refl (f : FileObj) : went_forward f f.
Proof. unfold went_forward. repeat split; auto. Qed.

Lemma went_forward_trans (f g h : FileObj) :
  went_forward f g -> went_forward g h -> went_forward f h.
Proof.
  intros (C1 & D1 & E1 & L1 & N1) (C2 & D2 & E2 & L2 & N2).
  repeat split; try congruence; try lia.
  intros i Hi Hl. rewrite N2 by lia. auto.
Qed.

(** ** The wrapped file's methods *)

Lemma length_overwrite (p : nat) (d c : bytes) :
  length (overwrite p d c) = Nat.max (p + length d) (length c).
Proof.
  unfold overwrite.
  rewrite !length_app, length_firstn, repeat_length, length_skipn. lia.
Qed.

Lemma nth_error_overwrite_before (p : nat) (d c : bytes) (i : nat) :
  i < p -> i < length c ->
  nth_error (overwrite p d c) i = nth_error c i.
Proof.
  intros Hp Hc. unfold overwrite.
  rewrite nth_error_app1 by (rewrite length_firstn; lia).
  rewrite nth_error_firstn.
  apply Nat.ltb_lt in Hp. rewrite Hp. reflexivity.
Qed.

Lemma file_read_moves (n : nat) (f : FileObj) :
  moved_cursor f (after (file_read n) f).
Proof.
  unfold after, file_read.
  destruct (closed f), (readable f); simpl;
    first [apply moved_cursor_refl | apply moved_cursor_set].
Qed.

Lemma file_read_all_moves (f : FileObj) :
  moved_cursor f (after file_read_all f).
Proof.
  unfold after, file_read_all.
  destruct (closed f), (readable f); simpl;
    first [apply moved_cursor_refl | apply moved_cursor_set].
Qed.

Lemma file_seek_moves (p : nat) (f : FileObj) :
  moved_cursor f (after (file_seek p) f).
Proof.
  unfold after, file_seek.
  destruct (closed f); simpl;
    first [apply moved_cursor_refl | apply moved_cursor_set].
Qed.

Lemma file_seek_cur_moves (l : nat) (f : FileObj) :
  moved_cursor f (after (file_seek_cur l) f).
Proof.
  unfold after, file_seek_cur.
  destruct (closed f); simpl;
    first [apply moved_cursor_refl | apply moved_cursor_set].
Qed.

Lemma file_tell_moves (f : FileObj) : moved_cursor f (after file_tell f).
Proof.
  unfold after, file_tell. destruct (closed f); apply moved_cursor_refl.
Qed.

Lemma util_read_varint_moves (f : FileObj) :
  moved_cursor f (after util_read_varint f).
Proof.
  unfold after, util_read_varint.
  destruct (closed f), (readable f); simpl; try apply moved_cursor_refl.
  destruct (decode_varint _) as [[v k]|]; apply moved_cursor_set.
Qed.

Lemma file_write_forward (d : bytes) (f : FileObj) :
  went_forward f (after (file_write d) f).
Proof.
  unfold after, file_write.
  destruct (closed f) eqn:C, (writable f); simpl; try apply went_forward_refl.
  destruct d as [|b d]; [apply went_forward_refl|].
  unfold went_forward. cbn [snd closed readable cursor content set_cursor set_content].
  repeat split; auto; try lia.
  - rewrite length_overwrite. lia.
  - intros i Hi Hl. now apply nth_error_overwrite_before.
Qed.

Lemma file_write_pystring_forward (s : pystring) (f : FileObj) :
  went_forward f (after (file_write_pystring s) f).
Proof.
  destruct s as [cs|bs]; [|apply file_write_forward].
  unfold after, file_write_pystring.
  destruct (closed f), (writable f); apply went_forward_refl.
Qed.

(** What a successful write leaves in the file. *)
Lemma file_write_ok (d : bytes) (f : FileObj) :
  closed f = false -> writable f = true ->
  exists f',
    file_write d f = (Ok tt, f') /\
    cursor f' = cursor f + length d /\
    skipn (cursor f) (content f') = d ++ skipn (cursor f + length d) (content f) /\
    closed f' = false /\ readable f' = readable f /\ writable f' = true.
Proof.
  intros C W. unfold file_write. rewrite C, W. simpl.
  destruct d as [|b d].
  - exists f. simpl. rewrite Nat.add_0_r. repeat split; auto.
  - eexists. split; [reflexivity|].
    cbn [closed readable writable cursor content set_cursor set_content].
    rewrite skipn_overwrite. repeat split; auto.
Qed.

(** What a read of an open readable file returns. *)
Lemma file_read_ok (n : nat) (f : FileObj) :
  closed f = false -> readable f = true ->
  file_read n f
  = (Ok (firstn n (skipn (cursor f) (content f))),
     set_cursor (cursor f + length (firstn n (skipn (cursor f) (content f)))) f).
Proof.
  intros C D. unfold file_read. rewrite C, D. reflexivity.
Qed.

Lemma firstn_app_exact {A : Type} (l r : list A) :
  firstn (length l) (l ++ r) = l.
Proof.
  rewrite firstn_app, Nat.sub_diag, firstn_all2 by lia.
  simpl. apply app_nil_r.
Qed.

(** Bytes that are before the cursor stay where they are when the file goes
    forward. *)
Lemma went_forward_span (f f' : FileObj) (p k : nat) :
  went_forward f f' ->
  p + k <= cursor f -> p + k <= length (content f) ->
  firstn k (skipn p (content f')) = firstn k (skipn p (content f)).
Proof.
  intros (_ & _ & Hc & Hl & Hn) Hp Hq.
  apply nth_error_ext. intros i.
  rewrite !nth_error_firstn, !nth_error_skipn.
  destruct (Nat.ltb_spec i k); [|reflexivity].
  apply Hn; lia.
Qed.

Lemma read_write_true (f : FileObj) :
  read_write f = true ->
  closed f = false /\ readable f = true /\ writable f = true.
Proof.
  unfold read_write. destruct (closed f), (readable f), (writable f);
    simpl; intros H; try discriminate; auto.
Qed.

Lemma can_read_true (f : FileObj) :
  can_read f = true -> closed f = false /\ readable f = true.
Proof.
  unfold can_read. destruct (closed f), (readable f);
    simpl; intros H; try discriminate; auto.
Qed.

(** Reading a variable-length integer where one was written. *)
Lemma util_read_varint_ok (i : N) (rest : bytes) (f : FileObj) :
  closed f = false -> readable f = true ->
  skipn (cursor f) (content f) = varint i ++ rest ->
  util_read_varint f = (Ok i, set_cursor (cursor f + length (varint i)) f).
Proof.
  intros C D E. unfold util_read_varint.
  rewrite C, D, E, decode_varint_varint. reflexivity.
Qed.

(** ** Variable-length integers *)

(** C2.  For every non-negative integer [n], on a wrapped file that is open
    for reading and writing, [write_varint(n)] succeeds, and seeking back to
    the position it was written at and calling [read_varint] returns exactly
    [n] and leaves the cursor where the write left it. *)
Theorem write_varint_read_varint (n : N) (sf : StructFile) :
  read_write (file sf) = true ->
  exists sf1 sf2,
    write_varint n sf = (Ok tt, sf1) /\
    (seek (cursor (file sf)) ;; read_varint) sf1 = (Ok n, sf2) /\
    cursor (file sf2) = cursor (file sf1).
Proof.
  intros H. apply read_write_true in H as (C & D & W).
  destruct (file_write_ok (varint n) (file sf) C W)
    as [f1 (E & Hc & Hs & C1 & D1 & W1)].
  exists (set_file f1 sf). eexists. split; [|split].
  - unfold write_varint, on_file. rewrite E. reflexivity.
  - unfold bind, seek, read_varint, on_file, file_seek.
    cbn [file set_file]. rewrite C1.
    erewrite util_read_varint_ok;
      [reflexivity | exact C1 | cbn; congruence | exact Hs].
  - cbn [file set_file cursor set_cursor]. lia.
Qed.

(** ** Big-endian packing *)

Lemma Z_of_byte_of_Z (z : Z) : Z_of_byte (byte_of_Z z) = (z mod 256)%Z.
Proof.
  unfold Z_of_byte. rewrite to_N_byte_of_Z. apply Z2N.id.
  apply Z.mod_pos_bound. reflexivity.
Qed.

Lemma Z_of_byte_range (b : byte) : (0 <= Z_of_byte b < 256)%Z.
Proof.
  unfold Z_of_byte. pose proof (Byte.to_N_bounded b). lia.
Qed.

Lemma length_be_encode (k : nat) (v : Z) : length (be_encode k v) = k.
Proof. induction k as [|k IH]; simpl; congruence. Qed.

Lemma be_decode_encode_from (k : nat) (v acc : Z) :
  fold_left (fun a b => (a * 256 + Z_of_byte b)%Z) (be_encode k v) acc
  = (acc * 2 ^ (8 * Z.of_nat k) + v mod 2 ^ (8 * Z.of_nat k))%Z.
Proof.
  revert acc. induction k as [|k IH]; intros acc.
  - simpl. rewrite Z.mod_1_r. lia.
  - cbn [be_encode fold_left]. rewrite IH, Z_of_byte_of_Z, Z.shiftr_div_pow2 by lia.
    replace (8 * Z.of_nat (S k))%Z with (8 * Z.of_nat k + 8)%Z by lia.
    rewrite Z.pow_add_r by lia. change (2 ^ 8)%Z with 256%Z.
    rewrite (Z.rem_mul_r v (2 ^ (8 * Z.of_nat k)) 256) by lia.
    lia.
Qed.

Lemma be_decode_encode (k : nat) (v : Z) :
  be_decode (be_encode k v) = (v mod 2 ^ (8 * Z.of_nat k))%Z.
Proof. unfold be_decode. rewrite be_decode_encode_from. lia. Qed.

Lemma pack_unsigned_ok (k : nat) (n : Z) :
  (0 <= n < 2 ^ (8 * Z.of_nat k))%Z ->
  exists h, pack_unsigned k n = Ok h /\ length h = k /\ be_decode h = n.
Proof.
  intros H. unfold pack_unsigned.
  replace ((0 <=? n) && (n <? 2 ^ (8 * Z.of_nat k)))%Z with true
    by (symmetry; apply andb_true_iff; split; [apply Z.leb_le|apply Z.ltb_lt]; lia).
  exists (be_encode k n). rewrite length_be_encode, be_decode_encode.
  rewrite Z.mod_small by lia. auto.
Qed.

(** ** Strings *)

(** Two writes in a row leave both byte strings in the file, one after the
    other. *)
Lemma file_write_twice_ok (d1 d2 : bytes) (f : FileObj) :
  closed f = false -> writable f = true -> d1 <> [] ->
  exists f1 f2 rest,
    file_write d1 f = (Ok tt, f1) /\
    file_write d2 f1 = (Ok tt, f2) /\
    skipn (cursor f) (content f2) = d1 ++ d2 ++ rest /\
    closed f2 = false /\ readable f2 = readable f.
Proof.
  intros C W Hne.
  destruct (file_write_ok d1 f C W) as [f1 (E1 & Hc1 & Hs1 & C1 & D1 & W1)].
  destruct (file_write_ok d2 f1 C1 W1) as [f2 (E2 & Hc2 & Hs2 & C2 & D2 & W2)].
  exists f1, f2, (skipn (cursor f1 + length d2) (content f1)).
  repeat split; auto; [|congruence].
  assert (Hl : cursor f + length d1 <= length (content f1)).
  { apply (f_equal (@length byte)) in Hs1.
    rewrite length_skipn, length_app in Hs1.
    destruct d1; [congruence|]. simpl in *. lia. }
  pose proof (file_write_forward d2 f1) as F. unfold after in F.
  rewrite E2 in F. simpl in F.
  pose proof (went_forward_span f1 f2 (cursor f) (length d1) F) as S.
  rewrite Hs1, firstn_app_exact in S.
  rewrite <- (firstn_skipn (length d1) (skipn (cursor f) (content f2))).
  rewrite S by lia. f_equal.
  rewrite skipn_skipn, Nat.add_comm, <- Hc1. exact Hs2.
Qed.

Lemma firstn_app_length {A : Type} (k : nat) (l r : list A) :
  length l = k -> firstn k (l ++ r) = l.
Proof. intros <-. apply firstn_app_exact. Qed.

Lemma skipn_app_length {A : Type} (k : nat) (l r : list A) :
  length l = k -> skipn k (l ++ r) = r.
Proof.
  intros <-. rewrite skipn_app, Nat.sub_diag, skipn_all2 by lia. reflexivity.
Qed.

Lemma write_string2_text (cs : list N) (bs : bytes) (sf : StructFile) :
  utf8_encode cs = Ok bs ->
  write_string2 (PyStr cs) sf = write_string2 (PyBytes bs) sf.
Proof. intros E. unfold write_string2, bind, lift_result, ret. now rewrite E. Qed.

Lemma write_string_read_string (bs : bytes) (sf : StructFile) :
  read_write (file sf) = true ->
  outcome (write_string (PyBytes bs) ;; seek (cursor (file sf)) ;; read_string) sf
  = Ok (PyBytes bs).
Proof.
  intros H. apply read_write_true in H as (C & D & W).
  destruct (varint_cons (N.of_nat (length bs))) as [b0 [v0 Hv]].
  destruct (file_write_twice_ok (varint (N.of_nat (length bs))) bs (file sf) C W)
    as [f1 [f2 [rest (E1 & E2 & Hs & C2 & D2)]]]; [rewrite Hv; discriminate|].
  unfold outcome, write_string, write_varint, bind, on_file.
  cbn [len].
  rewrite E1. cbn [file set_file file_write_pystring len]. rewrite E2.
  unfold seek, on_file, file_seek. cbn [file set_file]. rewrite C2.
  unfold read_string, read_varint, bind, on_file. cbn [file set_file].
  erewrite util_read_varint_ok;
    [ | exact C2 | cbn; congruence | exact Hs ].
  cbn [file set_file].
  rewrite file_read_ok by (cbn; congruence).
  cbn [cursor content set_cursor ret fst]. 
  rewrite Nat2N.id.
  rewrite Nat.add_comm, <- skipn_skipn, Hs, skipn_app_length by reflexivity.
  rewrite firstn_app_exact. reflexivity.
Qed.

Lemma write_string2_read_string2 (bs : bytes) (sf : StructFile) :
  read_write (file sf) = true -> (Z.of_nat (length bs) <= 65535)%Z ->
  outcome (write_string2 (PyBytes bs) ;; seek (cursor (file sf)) ;; read_string2) sf
  = Ok (PyBytes bs).
Proof.
  intros H L. apply read_write_true in H as (C & D & W).
  destruct (pack_unsigned_ok 2 (Z.of_nat (length bs))) as [h (Eh & Lh & Dh)].
  { change (2 ^ (8 * Z.of_nat 2))%Z with 65536%Z. lia. }
  destruct (file_write_ok (h ++ bs) (file sf) C W)
    as [f1 (E1 & Hc1 & Hs1 & C1 & D1 & W1)].
  unfold outcome, write_string2, bind, ret, lift_result, pack_ushort.
  rewrite Eh. unfold write, on_file. rewrite E1.
  unfold seek, on_file, file_seek. cbn [file set_file]. rewrite C1.
  unfold read_string2, read_ushort, bind, on_file, lift_result. cbn [file set_file].
  rewrite file_read_ok by (cbn; congruence).
  cbn [cursor content set_cursor].
  rewrite Hs1, <- app_assoc. unfold _USHORT_SIZE.
  rewrite (firstn_app_length 2 h) by exact Lh.
  unfold unpack_ushort, unpack_unsigned.
  rewrite Lh. cbn [Nat.eqb]. rewrite Dh.
  unfold read, on_file. cbn [file set_file].
  rewrite file_read_ok by (cbn; congruence).
  cbn [cursor content set_cursor ret fst].
  rewrite Nat2Z.id.
  rewrite Nat.add_comm, <- skipn_skipn, Hs1, <- app_assoc.
  rewrite (skipn_app_length 2 h) by exact Lh.
  rewrite firstn_app_exact. reflexivity.
Qed.

(** C3, as the code has it.  On a wrapped file open for reading and
    writing, and with [p] the position of the cursor:
    - variant 1 round-trips every byte string: [write_string(s)], a seek
      back to [p] and [read_string()] return [s];
    - variant 2 round-trips every byte string of at most 65535 bytes, and
      for a text string whose UTF-8 encoding has at most 65535 bytes
      [read_string2()] returns that encoding;
    - [write_string2] of more than 65535 bytes raises the packing error
      and leaves the file as it was. *)
Theorem string_roundtrip (bs : bytes) (sf : StructFile) :
  read_write (file sf) = true ->
  outcome (write_string (PyBytes bs) ;; seek (cursor (file sf)) ;; read_string)
          sf
  = Ok (PyBytes bs)
  /\ ((Z.of_nat (length bs) <= 65535)%Z ->
      outcome (write_string2 (PyBytes bs) ;; seek (cursor (file sf)) ;;
               read_string2) sf
      = Ok (PyBytes bs)
      /\ forall cs, utf8_encode cs = Ok bs ->
           outcome (write_string2 (PyStr cs) ;; seek (cursor (file sf)) ;;
                    read_string2) sf
           = Ok (PyBytes bs))
  /\ ((65535 < Z.of_nat (length bs))%Z ->
      write_string2 (PyBytes bs) sf = (Err StructError, sf)).
Proof.
  intros H. split; [|split].
  - now apply write_string_read_string.
  - intros L. split; [now apply write_string2_read_string2|].
    intros cs E.
    pose proof (write_string2_read_string2 bs sf H L) as R.
    unfold outcome, bind in *.
    now rewrite (write_string2_text cs bs sf E).
  - intros L. unfold write_string2, bind, ret, lift_result, pack_ushort,
      pack_unsigned.
    replace ((0 <=? Z.of_nat (length bs))
             && (Z.of_nat (length bs) <? 2 ^ (8 * Z.of_nat 2)))%Z with false;
      [reflexivity|].
    symmetry. apply andb_false_iff. right. apply Z.ltb_ge.
    change (2 ^ (8 * Z.of_nat 2))%Z with 65536%Z. lia.
Qed.

(** ** Single bytes *)

(** [write_byte(n)] hands [bytes(n)] to the file: [n] zero bytes. *)
Lemma write_byte_zeros (n : nat) (sf : StructFile) :
  read_write (file sf) = true ->
  (Z.of_nat n <= maxsize)%Z ->
  exists sf1,
    write_byte (Z.of_nat n) sf = (Ok tt, sf1) /\
    cursor (file sf1) = cursor (file sf) + n /\
    skipn (cursor (file sf)) (content (file sf1))
    = repeat x00 n ++ skipn (cursor (file sf) + n) (content (file sf)).
Proof.
  intros H L. apply read_write_true in H as (C & D & W).
  destruct (file_write_ok (repeat x00 n) (file sf) C W)
    as [f1 (E & Hc & Hs & _)].
  rewrite repeat_length in *.
  exists (set_file f1 sf). split; [|split; assumption].
  unfold write_byte, bind, lift_result, bytes_of_int, on_file.
  replace (Z.of_nat n <? - maxsize - 1)%Z with false
    by (symmetry; apply Z.ltb_ge; unfold maxsize; lia).
  replace (maxsize <? Z.of_nat n)%Z with false
    by (symmetry; apply Z.ltb_ge; lia).
  replace (Z.of_nat n <? 0)%Z with false by (symmetry; apply Z.ltb_ge; lia).
  cbn [orb]. rewrite Nat2Z.id, E. reflexivity.
Qed.

(** C5, at [n = 65] on an empty file: [write_byte(65)] succeeds and leaves
    65 zero bytes in the file, not the one byte 65; [read_byte] at the
    position of the write returns 0. *)
Theorem write_byte_65 :
  exists sf1,
    write_byte 65 (unmapped (BytesIO [])) = (Ok tt, sf1) /\
    content (file sf1) = repeat x00 65 /\
    cursor (file sf1) = 65 /\
    outcome (seek 0 ;; read_byte) sf1 = Ok 0%N.
Proof.
  eexists. split; [vm_compute; reflexivity|].
  repeat split; vm_compute; reflexivity.
Qed.

(** ** The truncation check of [read_int] *)

Lemma be_decode_4 (b0 b1 b2 b3 : byte) :
  be_decode [b0; b1; b2; b3]
  = (Z_of_byte b0 * 2 ^ 24 + Z_of_byte b1 * 2 ^ 16 + Z_of_byte b2 * 2 ^ 8
     + Z_of_byte b3)%Z.
Proof. unfold be_decode. cbn [fold_left]. lia. Qed.

Lemma to_signed_4 (v : Z) :
  (0 <= v < 2 ^ 32)%Z ->
  (- 2 ^ 31 <= to_signed 4 v < 2 ^ 31)%Z /\
  (to_signed 4 v mod 2 ^ 32 = v)%Z.
Proof.
  intros H. unfold to_signed.
  change (2 ^ (8 * Z.of_nat 4 - 1))%Z with (2 ^ 31)%Z.
  change (2 ^ (8 * Z.of_nat 4))%Z with (2 ^ 32)%Z.
  destruct (Z.ltb_spec v (2 ^ 31)) as [L|L].
  - split; [lia|]. apply Z.mod_small. lia.
  - split; [lia|].
    replace (v - 2 ^ 32)%Z with (v + (-1) * 2 ^ 32)%Z by lia.
    rewrite Z.mod_add by lia. apply Z.mod_small. lia.
Qed.

(** C4.  On a wrapped file that is open and readable, with [rest] the bytes
    from the cursor to the end of the file:
    - when fewer than 4 bytes are left, [read_int] raises its [IOError],
      which carries the file name, the position of the cursor after the
      short read, the bytes obtained, the expected count 4 and the count
      obtained;
    - when at least 4 bytes [b0 b1 b2 b3] are there, [read_int] returns the
      signed 32-bit integer whose two's complement is [b0 b1 b2 b3], most
      significant byte first. *)
Theorem read_int_checks_truncation (sf : StructFile) :
  can_read (file sf) = true ->
  (length (skipn (cursor (file sf)) (content (file sf))) < 4 ->
   outcome read_int sf
   = Err (IOError (_name sf)
            (cursor (file sf)
             + length (skipn (cursor (file sf)) (content (file sf))))
            (skipn (cursor (file sf)) (content (file sf)))
            4
            (length (skipn (cursor (file sf)) (content (file sf))))))
  /\ (4 <= length (skipn (cursor (file sf)) (content (file sf))) ->
      exists b0 b1 b2 b3 v,
        firstn 4 (skipn (cursor (file sf)) (content (file sf)))
        = [b0; b1; b2; b3]
        /\ outcome read_int sf = Ok v
        /\ (- 2 ^ 31 <= v < 2 ^ 31)%Z
        /\ (v mod 2 ^ 32
            = Z_of_byte b0 * 2 ^ 24 + Z_of_byte b1 * 2 ^ 16
              + Z_of_byte b2 * 2 ^ 8 + Z_of_byte b3)%Z).
Proof.
  intros H. apply can_read_true in H as (C & D).
  unfold outcome, read_int, bind, on_file.
  rewrite file_read_ok by assumption. unfold _INT_SIZE.
  remember (skipn (cursor (file sf)) (content (file sf))) as rest eqn:Er.
  split; intros L.
  - rewrite (firstn_all2 (n := 4)) by lia.
    apply Nat.ltb_lt in L as Lb. rewrite Lb.
    unfold tell, on_file, file_tell, raise.
    cbn [file set_file closed set_cursor cursor _name fst]. rewrite C.
    reflexivity.
  - destruct rest as [|b0 [|b1 [|b2 [|b3 rest]]]]; simpl in L; try lia.
    exists b0, b1, b2, b3. eexists. split; [reflexivity|].
    cbn [firstn length Nat.ltb Nat.leb lift_result unpack_int unpack_signed
         Nat.eqb fst].
    split; [reflexivity|].
    rewrite <- be_decode_4. apply to_signed_4.
    rewrite be_decode_4.
    pose proof (Z_of_byte_range b0). pose proof (Z_of_byte_range b1).
    pose proof (Z_of_byte_range b2). pose proof (Z_of_byte_range b3).
    lia.
Qed.

(** ** What each method changes *)

Lemma through_file_self {A : Type} (R : FileObj -> FileObj -> Prop)
    (m : StructFile -> M StructFile A) :
  (forall x, through_file R (m x)) -> through_file R (fun self => m self self).
Proof. intros H sf. exact (H sf sf). Qed.

Ltac moves :=
  repeat first
    [ apply (through_file_ret _ moved_cursor_refl)
    | apply (through_file_raise _ moved_cursor_refl)
    | apply (through_file_lift _ moved_cursor_refl)
    | apply through_file_on_file;
      first [ apply file_read_moves | apply file_read_all_moves
            | apply file_seek_moves | apply file_seek_cur_moves
            | apply file_tell_moves | apply util_read_varint_moves ]
    | apply (through_file_bind _ moved_cursor_trans); [ | intros ? ] ].

Ltac forwards :=
  repeat first
    [ apply (through_file_ret _ went_forward_refl)
    | apply (through_file_raise _ went_forward_refl)
    | apply (through_file_lift _ went_forward_refl)
    | apply through_file_on_file;
      first [ apply file_write_forward | apply file_write_pystring_forward ]
    | apply (through_file_bind _ went_forward_trans); [ | intros ? ] ].

Lemma read_moves (n : nat) : through_file moved_cursor (read n).
Proof. unfold read. moves. Qed.

Lemma seek_moves (p : nat) : through_file moved_cursor (seek p).
Proof. unfold seek. moves. Qed.

Lemma tell_moves : through_file moved_cursor tell.
Proof. unfold tell. moves. Qed.

Lemma flush_moves : through_file moved_cursor flush.
Proof.
  intros sf. exists (file sf). rewrite set_file_same. split.
  - unfold after, flush, on_file, file_flush.
    destruct (has_flush (file sf)); [|reflexivity].
    destruct (closed (file sf)); simpl; apply set_file_same.
  - apply moved_cursor_refl.
Qed.

Lemma read_varint_moves : through_file moved_cursor read_varint.
Proof. unfold read_varint. moves. Qed.

Lemma read_string_moves : through_file moved_cursor read_string.
Proof. unfold read_string, read_varint. moves. Qed.

Lemma read_ushort_moves : through_file moved_cursor read_ushort.
Proof. unfold read_ushort. moves. Qed.

Lemma read_string2_moves : through_file moved_cursor read_string2.
Proof. unfold read_string2, read_ushort, read. moves. Qed.

Lemma skip_string_moves : through_file moved_cursor skip_string.
Proof. unfold skip_string, read_varint. moves. Qed.

Lemma read_byte_moves : through_file moved_cursor read_byte.
Proof. unfold read_byte. moves. Qed.

Lemma read_int_moves : through_file moved_cursor read_int.
Proof.
  unfold read_int.
  apply (through_file_bind _ moved_cursor_trans); [moves|]. intros data.
  destruct (length data <? _INT_SIZE); [|moves].
  apply (through_file_self moved_cursor
           (fun self =>
              pos <- tell ;;
              raise (IOError (_name self) pos data _INT_SIZE (length data)))).
  intros self. unfold tell. moves.
Qed.

Lemma fakemap_getitem_moves (sl : index) :
  through_file moved_cursor (fakemap_getitem sl).
Proof.
  destruct sl as [i|start stop]; unfold fakemap_getitem, seek, read; moves.
  destruct (stop <? start); moves.
Qed.

Lemma map_getitem_moves (sl : index) : through_file moved_cursor (map_getitem sl).
Proof.
  intros sf.
  destruct (fakemap_getitem_moves sl sf) as [f' [E HR]].
  unfold after, map_getitem in *.
  destruct (map sf) as [[maplen|]|].
  - exists (file sf). rewrite set_file_same. split; [reflexivity|].
    apply moved_cursor_refl.
  - exists f'. auto.
  - exists (file sf). rewrite set_file_same. split; [reflexivity|].
    apply moved_cursor_refl.
Qed.

Lemma get_byte_moves (p : nat) : through_file moved_cursor (get_byte p).
Proof. unfold get_byte. moves. apply map_getitem_moves. Qed.

Lemma read_array_moves (native : nat) (tc : ascii) (n : nat) :
  through_file moved_cursor (read_array native tc n).
Proof.
  unfold read_array, sizemap_getitem.
  destruct (_SIZEMAP native tc); moves.
Qed.

Lemma get_array_moves (native : nat) (p : nat) (tc : ascii) (n : nat) :
  through_file moved_cursor (get_array native p tc n).
Proof.
  intros sf. unfold after, get_array.
  destruct (map sf) eqn:Em.
  - assert (T : through_file moved_cursor
                  (sz <- sizemap_getitem native tc ;;
                   d <- map_getitem (Slice p (p + sz * n)) ;;
                   lift_result (unpack_array tc n d))).
    { unfold sizemap_getitem. destruct (_SIZEMAP native tc); moves.
      apply map_getitem_moves. }
    exact (T sf).
  - exists (file sf). rewrite set_file_same. split; [reflexivity|].
    apply moved_cursor_refl.
Qed.

Lemma read_sbyte_moves : through_file moved_cursor read_sbyte.
Proof. unfold read_sbyte. moves. Qed.

Lemma read_uint_moves : through_file moved_cursor read_uint.
Proof. unfold read_uint. moves. Qed.

Lemma read_ulong_moves : through_file moved_cursor read_ulong.
Proof. unfold read_ulong. moves. Qed.

Lemma read_float_moves : through_file moved_cursor read_float.
Proof. unfold read_float. moves. Qed.

Lemma read_typed_moves (native : nat) (t : ftype) :
  through_file moved_cursor (read_typed native t).
Proof.
  destruct t; unfold read_typed, int_value, float_value, tuple_value;
    (apply (through_file_bind _ moved_cursor_trans); [|intros x; moves]).
  - apply read_sbyte_moves.
  - apply read_int_moves.
  - apply read_uint_moves.
  - apply read_ushort_moves.
  - apply read_ulong_moves.
  - apply read_float_moves.
  - apply read_array_moves.
Qed.

Lemma get_slice_moves {A : Type} (p k : nat) (u : pyitem -> result A) :
  through_file moved_cursor
    (d <- map_getitem (Slice p (p + k)) ;; lift_result (u d)).
Proof.
  apply (through_file_bind _ moved_cursor_trans); [|intros d; moves].
  apply map_getitem_moves.
Qed.

Lemma get_typed_moves (native : nat) (t : ftype) (p : nat) :
  through_file moved_cursor (get_typed native t p).
Proof.
  destruct t; unfold get_typed, int_value, float_value, tuple_value;
    (apply (through_file_bind _ moved_cursor_trans); [|intros x; moves]);
    first [ apply get_array_moves | apply get_slice_moves ].
Qed.

Lemma write_forward (d : bytes) : through_file went_forward (write d).
Proof. unfold write. forwards. Qed.

Lemma write_varint_forward (i : N) : through_file went_forward (write_varint i).
Proof. unfold write_varint. forwards. Qed.

Lemma write_string_forward (s : pystring) :
  through_file went_forward (write_string s).
Proof. unfold write_string, write_varint. forwards. Qed.

Lemma write_string2_forward (s : pystring) :
  through_file went_forward (write_string2 s).
Proof.
  unfold write_string2, write. destruct s; forwards.
Qed.

Lemma write_byte_forward (n : Z) : through_file went_forward (write_byte n).
Proof. unfold write_byte. forwards. Qed.

Lemma write_packed_forward (p : result bytes) :
  through_file went_forward (write_packed p).
Proof. unfold write_packed. forwards. Qed.

Lemma through_file_any {A : Type} (R : FileObj -> FileObj -> Prop)
    (m : M StructFile A) (sf : StructFile) :
  through_file R m -> exists f', after m sf = set_file f' sf.
Proof. intros H. destruct (H sf) as [f' [E _]]. eauto. Qed.

(** A call other than [close] leaves every attribute but [file] alone. *)
Lemma method_keeps_attributes (native : nat) (c : call) (sf : StructFile) :
  exists f', method native c sf = set_file f' sf.
Proof.
  destruct c; cbn [method];
    try (exists (file sf); symmetry; apply set_file_same);
    try (eexists; reflexivity).
  - eapply through_file_any, flush_moves.
  - eapply through_file_any, read_moves.
  - eapply through_file_any, write_forward.
  - eapply through_file_any, tell_moves.
  - eapply through_file_any, seek_moves.
  - eapply through_file_any, write_string_forward.
  - eapply through_file_any, write_string2_forward.
  - eapply through_file_any, read_string_moves.
  - eapply through_file_any, read_string2_moves.
  - eapply through_file_any, skip_string_moves.
  - eapply through_file_any, write_varint_forward.
  - eapply through_file_any, read_varint_moves.
  - eapply through_file_any, write_byte_forward.
  - eapply through_file_any, read_byte_moves.
  - eapply through_file_any, get_byte_moves.
  - eapply through_file_any, write_packed_forward.
  - eapply through_file_any, write_packed_forward.
  - eapply through_file_any, write_packed_forward.
  - eapply through_file_any, write_packed_forward.
  - eapply through_file_any, write_packed_forward.
  - eapply through_file_any, read_typed_moves.
  - eapply through_file_any, get_typed_moves.
  - eapply through_file_any, map_getitem_moves.
Qed.

(** ** Construction *)

Lemma init_shape (oserr : bool) (fileobj : FileObj) (name : option string)
    (h : option hook) (mapped : bool) (sf : StructFile) :
  __init__ oserr fileobj name h mapped = Ok sf ->
  file sf = fileobj /\ _name sf = name /\ onclose sf = h /\
  is_closed sf = false /\ map sf <> None.
Proof.
  unfold __init__.
  destruct (mapped && read_mode fileobj).
  - destruct (fstat_size fileobj) as [sz|e]; [|discriminate].
    destruct (0 <? sz); [destruct oserr|]; intros E; injection E as <-;
      cbn; repeat split; discriminate.
  - intros E; injection E as <-; cbn; repeat split; discriminate.
Qed.

(** C6, as the code has it.  Where the size of the file is not asked for
    (mapping is not requested, or the handle is not in a read mode) or the
    handle's descriptor gives it, the constructor does not fail at the
    mapping: it returns an instance, whatever the operating system answers
    to the mapping attempt.  It returns an instance with the synthetic
    mapping installed whenever mapping is not requested, or the handle is
    not in a read mode, or the size of the file is found to be zero, or the
    size is found and the operating system refuses the mapping.  The mapped
    view of that instance is the synthetic one: a lookup is a seek and a
    read on the handle. *)
Theorem init_falls_back (mmap_oserror : bool) (fileobj : FileObj)
    (name : option string) (h : option hook) (mapped : bool) :
  mapped = false \/ read_mode fileobj = false \/ fstat_size fileobj = Ok 0
  \/ (mmap_oserror = true /\ exists sz, fstat_size fileobj = Ok sz) ->
  (forall oserr,
      exists sf, __init__ oserr fileobj name h mapped = Ok sf) /\
  exists sf,
    __init__ mmap_oserror fileobj name h mapped = Ok sf /\
    map sf = Some FakeMap /\
    file sf = fileobj /\
    is_closed sf = false /\
    (forall sl, map_getitem sl sf = fakemap_getitem sl sf) /\
    (forall start k,
        map_getitem (Slice start (start + k)) sf
        = (seek start ;; d <- read k ;; ret (ItemBytes d)) sf).
Proof.
  intros H. split.
  { intros oserr. unfold __init__.
    destruct mapped, (read_mode fileobj); cbn [andb];
      try (eexists; reflexivity).
    destruct H as [H|[H|[H|[_ [sz H]]]]]; try discriminate;
      rewrite H; [eexists; reflexivity|].
    destruct (0 <? sz), oserr; eexists; reflexivity. }
  assert (E : exists sf,
             __init__ mmap_oserror fileobj name h mapped = Ok sf /\
             map sf = Some FakeMap /\ file sf = fileobj /\ is_closed sf = false).
  { unfold __init__.
    destruct mapped, (read_mode fileobj); cbn [andb];
      try (eexists; repeat split; reflexivity).
    destruct H as [H|[H|[H|[H [sz Hs]]]]]; try discriminate.
    - rewrite H. cbn. eexists; repeat split; reflexivity.
    - rewrite Hs, H. destruct (0 <? sz); eexists; repeat split; reflexivity. }
  destruct E as [sf (E & Em & Ef & Ec)].
  exists sf. repeat split; auto.
  - intros sl. unfold map_getitem. rewrite Em. reflexivity.
  - intros start k. unfold map_getitem. rewrite Em. unfold fakemap_getitem.
    replace (start + k <? start) with false
      by (symmetry; apply Nat.ltb_ge; lia).
    replace (start + k - start) with k by lia. reflexivity.
Qed.

(** ** Closing *)

Lemma exec_method (native : nat) (c : call) (w : World) :
  c <> Close ->
  exec native c w = mkWorld (method native c (inst w)) (hook_calls w).
Proof. destruct c; intros H; try reflexivity. congruence. Qed.

Lemma call_eq_close (c : call) : c = Close \/ c <> Close.
Proof. destruct c; first [left; reflexivity | right; discriminate]. Qed.

(** What [close] does to an instance that has its mapped view. *)
Lemma close_mapped (w : World) (m : mapview) :
  map (inst w) = Some m ->
  close w
  = (Ok tt,
     mkWorld
       (set_is_closed true
          (set_file
             (if has_close (file (inst w))
              then set_closed true (file (inst w))
              else file (inst w))
             (set_map None (inst w))))
       (hook_calls w
        ++ match onclose (inst w) with
           | Some h => [(h, set_map None (inst w))]
           | None => []
           end)).
Proof.
  intros Em. destruct w as [sf calls]. cbn [inst hook_calls] in *.
  unfold close, bind, del_map, call_onclose, on_inst, close_file, on_file,
    file_close.
  cbn [inst hook_calls]. rewrite Em.
  cbn [inst hook_calls onclose set_map file].
  destruct (onclose sf) as [h|]; cbn [inst hook_calls file set_map];
    destruct (has_close (file sf)); cbn [inst hook_calls];
    rewrite ?app_nil_r; reflexivity.
Qed.

(** What [close] does to an instance whose mapped view is gone. *)
Lemma close_unmapped (w : World) :
  map (inst w) = None -> close w = (Err AttributeError, w).
Proof.
  intros Em. unfold close, bind, del_map. rewrite Em. reflexivity.
Qed.

(** A call never clears the closed flag. *)
Lemma closed_stays_closed (native : nat) (c : call) (w : World) :
  is_closed (inst w) = true -> is_closed (inst (exec native c w)) = true.
Proof.
  intros H. destruct (call_eq_close c) as [->|Hc].
  - cbn [exec]. unfold after.
    destruct (map (inst w)) as [m|] eqn:Em.
    + rewrite (close_mapped w m Em). reflexivity.
    + rewrite (close_unmapped w Em). exact H.
  - rewrite exec_method by assumption. cbn [inst].
    destruct (method_keeps_attributes native c (inst w)) as [f' ->].
    exact H.
Qed.

Lemma run_closed_stays_closed (native : nat) (cs : list call) :
  forall w, is_closed (inst w) = true ->
            is_closed (inst (run native cs w)) = true.
Proof.
  induction cs as [|c cs IH]; intros w H; [exact H|].
  cbn [run fold_left]. apply IH. now apply closed_stays_closed.
Qed.

(** On every world a client can get to: an instance that is not flagged
    closed has its mapped view and its hook was never called; an instance
    flagged closed has lost its mapped view; the hook was called at most
    once. *)
Lemma reachable_invariant (native : nat) (w : World) :
  reachable native w ->
  (is_closed (inst w) = false -> map (inst w) <> None /\ hook_calls w = [])
  /\ (is_closed (inst w) = true -> map (inst w) = None)
  /\ length (hook_calls w) <= 1.
Proof.
  induction 1 as [oserr fileobj name h mapped sf E | c w Hw IH].
  - apply init_shape in E as (_ & _ & _ & Ec & Em). cbn [inst hook_calls].
    repeat split; auto. congruence.
  - destruct IH as (Iopen & Iclosed & Ilen).
    destruct (call_eq_close c) as [->|Hc].
    + cbn [exec]. unfold after.
      destruct (map (inst w)) as [m|] eqn:Em.
      * rewrite (close_mapped w m Em). cbn [snd inst hook_calls].
        destruct (is_closed (inst w)) eqn:Ec.
        { specialize (Iclosed eq_refl). discriminate. }
        destruct Iopen as [_ ->]; [reflexivity|].
        cbn [is_closed set_is_closed map set_file set_map].
        split; [intros X; discriminate X|].
        split; [reflexivity|].
        destruct (onclose (inst w)); simpl; lia.
      * rewrite (close_unmapped w Em). cbn [snd]. rewrite Em.
        exact (conj Iopen (conj Iclosed Ilen)).
    + rewrite exec_method by assumption. cbn [inst hook_calls].
      destruct (method_keeps_attributes native c (inst w)) as [f' ->].
      cbn [is_closed map set_file]. auto.
Qed.

(** C7.  On every instance a client can get to and that is not flagged
    closed, a call to [close] succeeds; it deletes the mapped view; if a
    hook is registered it calls it once, with the instance, and that is the
    only call the hook ever got; it closes the wrapped file if the file has
    a [close] method; it sets the closed flag.  No call clears the closed
    flag again. *)
Theorem close_is_terminal (native : nat) (w : World) :
  reachable native w ->
  is_closed (inst w) = false ->
  exists w',
    close w = (Ok tt, w') /\
    map (inst w') = None /\
    hook_calls w'
    = match onclose (inst w) with
      | Some h => [(h, set_map None (inst w))]
      | None => []
      end /\
    file (inst w')
    = (if has_close (file (inst w)) then set_closed true (file (inst w))
       else file (inst w)) /\
    is_closed (inst w') = true /\
    (forall cs, is_closed (inst (run native cs w')) = true) /\
    (forall c w2, is_closed (inst w2) = true ->
                  is_closed (inst (exec native c w2)) = true).
Proof.
  intros Hw Hopen.
  destruct (reachable_invariant native w Hw) as (Iopen & _ & _).
  destruct (Iopen Hopen) as [Em Ecalls].
  destruct (map (inst w)) as [m|] eqn:Em'; [|congruence].
  eexists. split; [apply (close_mapped w m Em')|].
  cbn [inst hook_calls map set_is_closed set_file set_map file is_closed].
  rewrite Ecalls. repeat split.
  - intros cs. now apply run_closed_stays_closed.
  - intros c w2. apply closed_stays_closed.
Qed.

(** C10.  On every instance a client can get to: once the instance is
    flagged closed, [close] raises [AttributeError] at [del self.map] and
    changes nothing, so the hook is not called and the wrapped file is not
    closed again; and the hook has been called at most once. *)
Theorem second_close_raises (native : nat) (w : World) :
  reachable native w ->
  (is_closed (inst w) = true -> close w = (Err AttributeError, w))
  /\ length (hook_calls w) <= 1.
Proof.
  intros Hw.
  destruct (reachable_invariant native w Hw) as (_ & Iclosed & Ilen).
  split; [|exact Ilen].
  intros Hc. apply close_unmapped. auto.
Qed.

(** ** The two read paths *)

(** The instance with the cursor of its file at [p]. *)
Lemma seek_then {A : Type} (p : nat) (m : M StructFile A) (sf : StructFile) :
  closed (file sf) = false ->
  (seek p ;; m) sf = m (set_file (set_cursor p (file sf)) sf).
Proof.
  intros C. unfold bind, seek, on_file, file_seek. rewrite C. reflexivity.
Qed.


Lemma view_current_true (sf : StructFile) :
  view_current sf = true ->
  map sf = Some FakeMap
  \/ exists maplen,
       map sf = Some (RealMap maplen) /\ length (content (file sf)) <= maplen.
Proof.
  unfold view_current. destruct (map sf) as [[maplen|]|]; intros H.
  - right. exists maplen. split; [reflexivity|]. now apply Nat.leb_le.
  - now left.
  - discriminate.
Qed.

Lemma map_slice (k p : nat) (sf : StructFile) :
  can_read (file sf) = true -> view_current sf = true ->
  shows_handle_bytes sf ->
  outcome (map_getitem (Slice p (p + k))) sf
  = Ok (ItemBytes (firstn k (skipn p (content (file sf))))).
Proof.
  intros H V S. apply can_read_true in H as (C & D).
  unfold outcome, map_getitem. unfold shows_handle_bytes in S.
  destruct (view_current_true sf V) as [Em | [maplen [Em L]]];
    rewrite Em in *.
  - unfold fakemap_getitem.
    replace (p + k <? p) with false by (symmetry; apply Nat.ltb_ge; lia).
    replace (p + k - p) with k by lia.
    rewrite seek_then by assumption.
    unfold bind, read, on_file, ret. cbn [file set_file].
    rewrite file_read_ok by (cbn; assumption). reflexivity.
  - cbn [fst mmap_getitem]. rewrite S.
    rewrite (firstn_all2 (n := maplen)) by assumption.
    replace (p + k - p) with k by lia. reflexivity.
Qed.




Lemma read_int_at (p : nat) (sf : StructFile) :
  can_read (file sf) = true ->
  outcome (seek p ;; read_int) sf
  = if length (firstn 4 (skipn p (content (file sf)))) <? 4
    then Err (IOError (_name sf)
                (p + length (firstn 4 (skipn p (content (file sf)))))
                (firstn 4 (skipn p (content (file sf)))) 4
                (length (firstn 4 (skipn p (content (file sf))))))
    else unpack_int (ItemBytes (firstn 4 (skipn p (content (file sf))))).
Proof.
  intros H. apply can_read_true in H as (C & D).
  unfold outcome. rewrite seek_then by assumption.
  unfold read_int, bind, on_file. cbn [file set_file].
  rewrite file_read_ok by (cbn; assumption).
  cbn [cursor content set_cursor]. unfold _INT_SIZE.
  destruct (length (firstn 4 (skipn p (content (file sf)))) <? 4).
  - unfold tell, on_file, file_tell, raise.
    cbn [file set_file closed set_cursor cursor _name fst]. rewrite C.
    reflexivity.
  - reflexivity.
Qed.



(** The constructor gives [mmapped] and [unmapped] instances. *)
Lemma init_examples :
  __init__ false (open_rb four) None None true = Ok (mmapped (open_rb four))
  /\ __init__ false (open_rwb four) None None true
     = Ok (mmapped (open_rwb four))
  /\ __init__ false (BytesIO four) None None true
     = Ok (unmapped (BytesIO four)).
Proof. repeat split. Qed.

(** ** The cursor and the mapped view *)


(** A lookup in the synthetic mapping leaves the cursor after the bytes it
    got. *)
Lemma fake_lookup_cursor (sl : index) (sf : StructFile) :
  map sf = Some FakeMap -> can_read (file sf) = true ->
  after (map_getitem sl) sf
  = set_file
      (set_cursor
         (index_start sl + length (fake_data sl (content (file sf))))
         (file sf))
      sf.
Proof.
  intros Em H. apply can_read_true in H as (C & D).
  unfold after, map_getitem. rewrite Em.
  destruct sl as [i|start stop]; unfold fakemap_getitem;
    rewrite seek_then by assumption.
  - unfold bind, read, on_file, ret. cbn [file set_file].
    rewrite file_read_ok by (cbn; assumption). reflexivity.
  - cbn [index_start fake_data].
    destruct (stop <? start).
    + unfold bind, on_file, file_read_all, ret. cbn [file set_file closed readable set_cursor].
      rewrite C, D. reflexivity.
    + unfold bind, read, on_file, ret. cbn [file set_file].
      rewrite file_read_ok by (cbn; assumption). reflexivity.
Qed.








(** ** Fixed-width numbers written and read back *)

Lemma pack_signed_ok (k : nat) (n : Z) :
  0 < k ->
  (- 2 ^ (8 * Z.of_nat k - 1) <= n < 2 ^ (8 * Z.of_nat k - 1))%Z ->
  exists h,
    pack_signed k n = Ok h /\ length h = k /\ to_signed k (be_decode h) = n.
Proof.
  intros Hk H. unfold pack_signed.
  replace ((- 2 ^ (8 * Z.of_nat k - 1) <=? n)
           && (n <? 2 ^ (8 * Z.of_nat k - 1)))%Z with true
    by (symmetry; apply andb_true_iff; split;
        [apply Z.leb_le|apply Z.ltb_lt]; lia).
  exists (be_encode k n). rewrite length_be_encode, be_decode_encode.
  repeat split; auto.
  unfold to_signed.
  assert (E : (2 ^ (8 * Z.of_nat k) = 2 * 2 ^ (8 * Z.of_nat k - 1))%Z).
  { rewrite <- Z.pow_succ_r by lia. f_equal. lia. }
  assert (P : (0 < 2 ^ (8 * Z.of_nat k - 1))%Z) by (apply Z.pow_pos_nonneg; lia).
  destruct (Z.le_gt_cases 0 n) as [Hn|Hn].
  - rewrite Z.mod_small by lia.
    replace (n <? 2 ^ (8 * Z.of_nat k - 1))%Z with true
      by (symmetry; apply Z.ltb_lt; lia).
    reflexivity.
  - assert (M : (n mod 2 ^ (8 * Z.of_nat k) = n + 2 ^ (8 * Z.of_nat k))%Z).
    { symmetry. apply (Z.mod_unique n _ (-1)); lia. }
    rewrite M.
    replace (n + 2 ^ (8 * Z.of_nat k) <? 2 ^ (8 * Z.of_nat k - 1))%Z with false
      by (symmetry; apply Z.ltb_ge; lia).
    lia.
Qed.

Lemma pack_unsigned_out (k : nat) (n : Z) :
  (n < 0 \/ 2 ^ (8 * Z.of_nat k) <= n)%Z -> pack_unsigned k n = Err StructError.
Proof.
  intros H. unfold pack_unsigned.
  replace ((0 <=? n) && (n <? 2 ^ (8 * Z.of_nat k)))%Z with false;
    [reflexivity|].
  symmetry. apply andb_false_iff.
  destruct H; [left; apply Z.leb_gt|right; apply Z.ltb_ge]; lia.
Qed.

Lemma pack_signed_out (k : nat) (n : Z) :
  (n < - 2 ^ (8 * Z.of_nat k - 1) \/ 2 ^ (8 * Z.of_nat k - 1) <= n)%Z ->
  pack_signed k n = Err StructError.
Proof.
  intros H. unfold pack_signed.
  replace ((- 2 ^ (8 * Z.of_nat k - 1) <=? n)
           && (n <? 2 ^ (8 * Z.of_nat k - 1)))%Z with false;
    [reflexivity|].
  symmetry. apply andb_false_iff.
  destruct H; [left; apply Z.leb_gt|right; apply Z.ltb_ge]; lia.
Qed.

(** Packed bytes written at the cursor and read back from there. *)
Lemma packed_read_back {A : Type} (k : nat) (d : bytes)
    (u : pyitem -> result A) (sf : StructFile) :
  read_write (file sf) = true -> length d = k ->
  outcome (write_packed (Ok d) ;; seek (cursor (file sf)) ;;
           x <- on_file (file_read k) ;; lift_result (u (ItemBytes x))) sf
  = u (ItemBytes d).
Proof.
  intros H L. apply read_write_true in H as (C & D & W).
  destruct (file_write_ok d (file sf) C W)
    as [f1 (E1 & Hc1 & Hs1 & C1 & D1 & W1)].
  unfold outcome, write_packed, bind, lift_result, on_file.
  rewrite E1.
  unfold seek, on_file, file_seek. cbn [file set_file]. rewrite C1.
  cbn [file set_file].
  rewrite file_read_ok by (cbn; congruence).
  cbn [cursor content set_cursor fst].
  rewrite Hs1, (firstn_app_length k d) by exact L. reflexivity.
Qed.

(** Packed bytes written at the cursor and looked up in the synthetic
    mapping. *)
Lemma packed_get_back {A : Type} (k : nat) (d : bytes)
    (u : pyitem -> result A) (sf : StructFile) :
  read_write (file sf) = true -> map sf = Some FakeMap -> length d = k ->
  outcome (write_packed (Ok d) ;;
           x <- map_getitem (Slice (cursor (file sf)) (cursor (file sf) + k)) ;;
           lift_result (u x)) sf
  = u (ItemBytes d).
Proof.
  intros H Em L. apply read_write_true in H as (C & D & W).
  destruct (file_write_ok d (file sf) C W)
    as [f1 (E1 & Hc1 & Hs1 & C1 & D1 & W1)].
  unfold outcome, write_packed, bind, lift_result, on_file.
  rewrite E1.
  pose proof (map_slice k (cursor (file sf)) (set_file f1 sf)) as G.
  unfold outcome in G.
  destruct (map_getitem (Slice (cursor (file sf)) (cursor (file sf) + k))
              (set_file f1 sf)) as [r s1].
  cbn [fst] in G. rewrite G.
  - cbn [file set_file content fst].
    rewrite Hs1, (firstn_app_length k d) by exact L. reflexivity.
  - unfold can_read. cbn [file set_file]. rewrite C1, D1, D. reflexivity.
  - unfold view_current. cbn [map set_file]. rewrite Em. reflexivity.
  - unfold shows_handle_bytes. cbn [map set_file]. rewrite Em. exact I.
Qed.

Ltac pow2_bounds :=
  change (2 ^ (8 * Z.of_nat 1 - 1))%Z with 128%Z in *;
  change (2 ^ (8 * Z.of_nat 4 - 1))%Z with 2147483648%Z in *;
  change (2 ^ (8 * Z.of_nat 2))%Z with 65536%Z in *;
  change (2 ^ (8 * Z.of_nat 4))%Z with 4294967296%Z in *.

(** X1.  On a wrapped file open for reading and writing, every integer that
    fits its format comes back from the sequential read of the same format
    after a seek to where it was written: signed byte, unsigned short,
    signed int, unsigned int and unsigned long. *)
Theorem integer_write_read (n : Z) (sf : StructFile) :
  read_write (file sf) = true ->
  ((-128 <= n < 128)%Z ->
   outcome (write_sbyte n ;; seek (cursor (file sf)) ;; read_sbyte) sf = Ok n)
  /\ ((0 <= n < 65536)%Z ->
      outcome (write_ushort n ;; seek (cursor (file sf)) ;; read_ushort) sf
      = Ok n)
  /\ ((-2147483648 <= n < 2147483648)%Z ->
      outcome (write_int n ;; seek (cursor (file sf)) ;; read_int) sf = Ok n)
  /\ ((0 <= n < 4294967296)%Z ->
      outcome (write_uint n ;; seek (cursor (file sf)) ;; read_uint) sf = Ok n
      /\ outcome (write_ulong n ;; seek (cursor (file sf)) ;; read_ulong) sf
         = Ok n).
Proof.
  intros H. split; [|split; [|split]]; intros R.
  - destruct (pack_signed_ok 1 n) as [h (Eh & Lh & Dh)];
      [lia | pow2_bounds; lia |].
    unfold write_sbyte, pack_sbyte, read_sbyte. rewrite Eh.
    rewrite (packed_read_back 1 h unpack_sbyte sf H Lh).
    unfold unpack_sbyte, unpack_signed. rewrite Lh, Dh. reflexivity.
  - destruct (pack_unsigned_ok 2 n) as [h (Eh & Lh & Dh)];
      [pow2_bounds; lia |].
    unfold write_ushort, pack_ushort, read_ushort, _USHORT_SIZE. rewrite Eh.
    rewrite (packed_read_back 2 h unpack_ushort sf H Lh).
    unfold unpack_ushort, unpack_unsigned. rewrite Lh, Dh. reflexivity.
  - destruct (pack_signed_ok 4 n) as [h (Eh & Lh & Dh)];
      [lia | pow2_bounds; lia |].
    pose proof (read_write_true _ H) as (C & D & W).
    destruct (file_write_ok h (file sf) C W)
      as [f1 (E1 & Hc1 & Hs1 & C1 & D1 & W1)].
    unfold outcome, write_int, pack_int, write_packed, bind, lift_result,
      on_file.
    rewrite Eh, E1.
    pose proof (read_int_at (cursor (file sf)) (set_file f1 sf)) as G.
    unfold outcome, bind in G. cbn [file set_file] in *.
    rewrite G by (unfold can_read; rewrite C1, D1, D; reflexivity).
    rewrite Hs1, (firstn_app_length 4 h) by exact Lh.
    rewrite Lh. cbn [Nat.ltb Nat.leb].
    unfold unpack_int, unpack_signed. rewrite Lh, Dh. reflexivity.
  - destruct (pack_unsigned_ok 4 n) as [h (Eh & Lh & Dh)];
      [pow2_bounds; lia |].
    split.
    + unfold write_uint, pack_uint, read_uint, _INT_SIZE. rewrite Eh.
      rewrite (packed_read_back 4 h unpack_uint sf H Lh).
      unfold unpack_uint, unpack_unsigned. rewrite Lh, Dh. reflexivity.
    + unfold write_ulong, pack_ulong, read_ulong, _ULONG_SIZE. rewrite Eh.
      rewrite (packed_read_back 4 h unpack_ulong sf H Lh).
      unfold unpack_ulong, unpack_unsigned. rewrite Lh, Dh. reflexivity.
Qed.

(** X2.  A number that does not fit its format is refused: the write raises
    the packing error and the instance, its file included, is left as it
    was. *)
Theorem integer_write_out_of_range (n : Z) (sf : StructFile) :
  ((n < -128 \/ 128 <= n)%Z -> write_sbyte n sf = (Err StructError, sf))
  /\ ((n < 0 \/ 65536 <= n)%Z -> write_ushort n sf = (Err StructError, sf))
  /\ ((n < -2147483648 \/ 2147483648 <= n)%Z ->
      write_int n sf = (Err StructError, sf))
  /\ ((n < 0 \/ 4294967296 <= n)%Z ->
      write_uint n sf = (Err StructError, sf)
      /\ write_ulong n sf = (Err StructError, sf)).
Proof.
  unfold write_sbyte, write_ushort, write_int, write_uint, write_ulong,
    pack_sbyte, pack_ushort, pack_int, pack_uint, pack_ulong, write_packed,
    bind, lift_result.
  split; [|split; [|split]]; intros R.
  - rewrite pack_signed_out by (pow2_bounds; lia). reflexivity.
  - rewrite pack_unsigned_out by (pow2_bounds; lia). reflexivity.
  - rewrite pack_signed_out by (pow2_bounds; lia). reflexivity.
  - rewrite pack_unsigned_out by (pow2_bounds; lia). split; reflexivity.
Qed.

(** X3.  On an instance with the synthetic mapping over a file open for
    reading and writing, an integer that fits its format, written at the
    cursor, is what the mapped read of the same format returns for the
    offset it was written at. *)
Theorem integer_write_get (n : Z) (sf : StructFile) :
  read_write (file sf) = true -> map sf = Some FakeMap ->
  ((-128 <= n < 128)%Z ->
   outcome (write_sbyte n ;; get_sbyte (cursor (file sf))) sf = Ok n)
  /\ ((0 <= n < 65536)%Z ->
      outcome (write_ushort n ;; get_ushort (cursor (file sf))) sf = Ok n)
  /\ ((-2147483648 <= n < 2147483648)%Z ->
      outcome (write_int n ;; get_int (cursor (file sf))) sf = Ok n)
  /\ ((0 <= n < 4294967296)%Z ->
      outcome (write_uint n ;; get_uint (cursor (file sf))) sf = Ok n
      /\ outcome (write_ulong n ;; get_ulong (cursor (file sf))) sf = Ok n).
Proof.
  intros H Em. split; [|split; [|split]]; intros R.
  - destruct (pack_signed_ok 1 n) as [h (Eh & Lh & Dh)];
      [lia | pow2_bounds; lia |].
    unfold write_sbyte, pack_sbyte, get_sbyte. rewrite Eh.
    rewrite (packed_get_back 1 h unpack_sbyte sf H Em Lh).
    unfold unpack_sbyte, unpack_signed. rewrite Lh, Dh. reflexivity.
  - destruct (pack_unsigned_ok 2 n) as [h (Eh & Lh & Dh)];
      [pow2_bounds; lia |].
    unfold write_ushort, pack_ushort, get_ushort, _USHORT_SIZE. rewrite Eh.
    rewrite (packed_get_back 2 h unpack_ushort sf H Em Lh).
    unfold unpack_ushort, unpack_unsigned. rewrite Lh, Dh. reflexivity.
  - destruct (pack_signed_ok 4 n) as [h (Eh & Lh & Dh)];
      [lia | pow2_bounds; lia |].
    unfold write_int, pack_int, get_int, _INT_SIZE. rewrite Eh.
    rewrite (packed_get_back 4 h unpack_int sf H Em Lh).
    unfold unpack_int, unpack_signed. rewrite Lh, Dh. reflexivity.
  - destruct (pack_unsigned_ok 4 n) as [h (Eh & Lh & Dh)];
      [pow2_bounds; lia |].
    split.
    + unfold write_uint, pack_uint, get_uint, _INT_SIZE. rewrite Eh.
      rewrite (packed_get_back 4 h unpack_uint sf H Em Lh).
      unfold unpack_uint, unpack_unsigned. rewrite Lh, Dh. reflexivity.
    + unfold write_ulong, pack_ulong, get_ulong, _ULONG_SIZE. rewrite Eh.
      rewrite (packed_get_back 4 h unpack_ulong sf H Em Lh).
      unfold unpack_ulong, unpack_unsigned. rewrite Lh, Dh. reflexivity.
Qed.

(** ** Short reads *)

(** A read of [k] bytes and an unpacking that wants exactly [k]. *)
Lemma read_unpack {A : Type} (k : nat) (u : pyitem -> result A)
    (sf : StructFile) :
  can_read (file sf) = true ->
  (d <- on_file (file_read k) ;; lift_result (u (ItemBytes d))) sf
  = (u (ItemBytes (firstn k (skipn (cursor (file sf)) (content (file sf))))),
     set_file
       (set_cursor
          (cursor (file sf)
           + length (firstn k (skipn (cursor (file sf)) (content (file sf)))))
          (file sf))
       sf).
Proof.
  intros H. apply can_read_true in H as (C & D).
  unfold bind, on_file, lift_result. rewrite file_read_ok by assumption.
  reflexivity.
Qed.

(** X4.  On a wrapped file that is open and readable with fewer bytes left
    than the format takes, each of [read_sbyte], [read_ushort], [read_uint],
    [read_ulong] and [read_float] raises the plain unpacking error and
    leaves the instance with the cursor moved past the bytes that were
    left: to the end of the file, or where it was when it was already at or
    past the end. *)
Theorem short_read_raises (sf : StructFile) :
  can_read (file sf) = true ->
  (length (skipn (cursor (file sf)) (content (file sf))) < 1 ->
   read_sbyte sf = (Err StructError, drained sf))
  /\ (length (skipn (cursor (file sf)) (content (file sf))) < 2 ->
      read_ushort sf = (Err StructError, drained sf))
  /\ (length (skipn (cursor (file sf)) (content (file sf))) < 4 ->
      read_uint sf = (Err StructError, drained sf)
      /\ read_ulong sf = (Err StructError, drained sf)
      /\ read_float sf = (Err StructError, drained sf)).
Proof.
  intros H.
  unfold drained, read_sbyte, read_ushort, read_uint, read_ulong,
    read_float, _USHORT_SIZE, _INT_SIZE, _ULONG_SIZE, _FLOAT_SIZE.
  rewrite !read_unpack by assumption.
  remember (skipn (cursor (file sf)) (content (file sf))) as rest eqn:Er.
  split; [|split]; intros L.
  - rewrite (firstn_all2 (n := 1)) by lia.
    unfold unpack_sbyte, unpack_signed.
    replace (length rest =? 1) with false
      by (symmetry; apply Nat.eqb_neq; lia).
    reflexivity.
  - rewrite (firstn_all2 (n := 2)) by lia.
    unfold unpack_ushort, unpack_unsigned.
    replace (length rest =? 2) with false
      by (symmetry; apply Nat.eqb_neq; lia).
    reflexivity.
  - rewrite (firstn_all2 (n := 4)) by lia.
    unfold unpack_uint, unpack_ulong, unpack_float, unpack_unsigned.
    replace (length rest =? 4) with false
      by (symmetry; apply Nat.eqb_neq; lia).
    repeat split; reflexivity.
Qed.

(** ** Single bytes, read *)

(** X5.  On a wrapped file that is open and readable, [read_byte] returns
    the byte under the cursor as a number below 256 and moves the cursor by
    one; at or past the end of the file it raises a type error ([ord] of the
    empty byte string) and leaves the instance as it was. *)
Theorem read_byte_value (sf : StructFile) :
  can_read (file sf) = true ->
  match nth_error (content (file sf)) (cursor (file sf)) with
  | Some b =>
      read_byte sf
      = (Ok (Byte.to_N b), set_file (set_cursor (cursor (file sf) + 1) (file sf)) sf)
      /\ (Byte.to_N b < 256)%N
  | None => read_byte sf = (Err TypeError, sf)
  end.
Proof.
  intros H. unfold read_byte. rewrite read_unpack by assumption.
  destruct (nth_error (content (file sf)) (cursor (file sf))) as [b|] eqn:En.
  - assert (E : exists rest,
               skipn (cursor (file sf)) (content (file sf)) = b :: rest).
    { rewrite <- (Nat.add_0_r (cursor (file sf))), <- nth_error_skipn in En.
      destruct (skipn (cursor (file sf)) (content (file sf))) as [|b' rest];
        [discriminate|].
      injection En as ->. eauto. }
    destruct E as [rest ->]. cbn [firstn length ord].
    split; [reflexivity|].
    pose proof (Byte.to_N_bounded b). lia.
  - apply nth_error_None in En.
    rewrite skipn_all2 by assumption. cbn [firstn length ord].
    rewrite Nat.add_0_r, set_cursor_same, set_file_same. reflexivity.
Qed.


(** ** Strings: skipping and truncation *)



(** X8.  [read_string2] on a wrapped file that is open and readable.  With
    fewer than two bytes left it raises the unpacking error.  With a prefix
    [h0 h1] it returns the [256 * h0 + h1] bytes that follow, or all that
    is left when fewer follow: a string cut short by the end of the file is
    returned short, not refused. *)
Theorem read_string2_truncated (sf : StructFile) :
  can_read (file sf) = true ->
  (length (skipn (cursor (file sf)) (content (file sf))) < 2 ->
   outcome read_string2 sf = Err StructError)
  /\ (forall h0 h1 body,
         skipn (cursor (file sf)) (content (file sf)) = h0 :: h1 :: body ->
         outcome read_string2 sf
         = Ok (PyBytes
                 (firstn (Z.to_nat (Z_of_byte h0 * 256 + Z_of_byte h1)) body))
         /\ cursor (file (after read_string2 sf))
            = cursor (file sf) + 2
              + Nat.min (Z.to_nat (Z_of_byte h0 * 256 + Z_of_byte h1))
                  (length body)).
Proof.
  intros H. pose proof (can_read_true _ H) as (C & D).
  unfold outcome, after, read_string2, read_ushort, _USHORT_SIZE, read,
    bind, on_file, lift_result, ret.
  rewrite file_read_ok by assumption.
  split.
  - intros L. rewrite (firstn_all2 (n := 2)) by lia.
    unfold unpack_ushort, unpack_unsigned.
    replace (length (skipn (cursor (file sf)) (content (file sf))) =? 2)
      with false by (symmetry; apply Nat.eqb_neq; lia).
    reflexivity.
  - intros h0 h1 body E. rewrite E.
    cbn [firstn length unpack_ushort unpack_unsigned Nat.eqb].
    unfold be_decode. cbn [fold_left]. rewrite Z.mul_0_l, Z.add_0_l.
    cbn [file set_file].
    rewrite file_read_ok by (cbn; assumption).
    cbn [cursor content set_cursor fst snd file set_file].
    replace (skipn (cursor (file sf) + 2) (content (file sf))) with body.
    + rewrite length_firstn. split; reflexivity.
    + rewrite Nat.add_comm, <- skipn_skipn, E. reflexivity.
Qed.

(** ** Arrays *)

Lemma be_decode_bound_from (bs : bytes) :
  forall (acc : Z) (j : nat),
    (0 <= acc < 2 ^ (8 * Z.of_nat j))%Z ->
    (0 <= fold_left (fun a b => (a * 256 + Z_of_byte b)%Z) bs acc
     < 2 ^ (8 * Z.of_nat (j + length bs)))%Z.
Proof.
  induction bs as [|b bs IH]; intros acc j H.
  - cbn [fold_left length]. rewrite Nat.add_0_r. exact H.
  - cbn [fold_left length].
    replace (j + S (length bs)) with (S j + length bs) by lia.
    apply IH.
    pose proof (Z_of_byte_range b).
    replace (8 * Z.of_nat (S j))%Z with (8 * Z.of_nat j + 8)%Z by lia.
    rewrite Z.pow_add_r by lia. change (2 ^ 8)%Z with 256%Z. lia.
Qed.

Lemma be_decode_bound (bs : bytes) :
  (0 <= be_decode bs < 2 ^ (8 * Z.of_nat (length bs)))%Z.
Proof.
  apply (be_decode_bound_from bs 0%Z 0). simpl. lia.
Qed.

Lemma to_signed_bound (k : nat) (v : Z) :
  0 < k -> (0 <= v < 2 ^ (8 * Z.of_nat k))%Z ->
  (- 2 ^ (8 * Z.of_nat k - 1) <= to_signed k v < 2 ^ (8 * Z.of_nat k - 1))%Z.
Proof.
  intros Hk H. unfold to_signed.
  assert (E : (2 ^ (8 * Z.of_nat k) = 2 * 2 ^ (8 * Z.of_nat k - 1))%Z).
  { rewrite <- Z.pow_succ_r by lia. f_equal. lia. }
  assert (P : (0 < 2 ^ (8 * Z.of_nat k - 1))%Z) by (apply Z.pow_pos_nonneg; lia).
  destruct (Z.ltb_spec v (2 ^ (8 * Z.of_nat k - 1))); lia.
Qed.

Lemma std_size_pos (c : fmt) : 0 < std_size c.
Proof. destruct c; simpl; lia. Qed.

Lemma decode_elem_fits (c : fmt) (bs : bytes) :
  length bs = std_size c -> fits c (decode_elem c bs).
Proof.
  intros L. pose proof (be_decode_bound bs) as B. rewrite L in B.
  pose proof (to_signed_bound (std_size c) (be_decode bs) (std_size_pos c) B).
  destruct c; cbn [fits decode_elem]; auto.
Qed.

Lemma length_decode_elems (c : fmt) (n : nat) :
  forall bs, length (decode_elems c n bs) = n.
Proof. induction n as [|n IH]; intros bs; simpl; auto. Qed.

Lemma decode_elems_fit (c : fmt) (n : nat) :
  forall bs, std_size c * n <= length bs ->
             Forall (fits c) (decode_elems c n bs).
Proof.
  induction n as [|n IH]; intros bs L; cbn [decode_elems]; constructor.
  - apply decode_elem_fits. rewrite length_firstn. lia.
  - apply IH. rewrite length_skipn. lia.
Qed.

(** X9.  On a wrapped file that is open and readable, for a typecode of
    ["bBiIhHlLf"] whose [_SIZEMAP] size times the count is what the "!"
    format takes (every typecode but those of the C long where a long is
    not 4 bytes, and every typecode when the count is 0), and with that
    many bytes left, [read_array] returns as many numbers as asked for,
    each of the kind and within the range of the typecode, and moves the
    cursor past the bytes it took. *)
Theorem read_array_elements (native : nat) (tc : ascii) (c : fmt) (n : nat)
    (sf : StructFile) :
  can_read (file sf) = true ->
  fmt_of_typecode tc = Some c ->
  native_size native c * n = std_size c * n ->
  std_size c * n <= length (skipn (cursor (file sf)) (content (file sf))) ->
  exists xs,
    read_array native tc n sf
    = (Ok xs,
       set_file (set_cursor (cursor (file sf) + std_size c * n) (file sf)) sf)
    /\ length xs = n
    /\ Forall (fits c) xs.
Proof.
  intros H Ec Es L. pose proof (can_read_true _ H) as (C & D).
  exists (decode_elems c n
            (firstn (std_size c * n)
               (skipn (cursor (file sf)) (content (file sf))))).
  split; [|split].
  - unfold read_array, sizemap_getitem, _SIZEMAP. rewrite Ec.
    cbn [option_map]. unfold bind at 1. unfold ret at 1.
    rewrite read_unpack by assumption. rewrite Es.
    unfold unpack_array. rewrite Ec.
    rewrite length_firstn, Nat.min_l by assumption.
    rewrite Nat.eqb_refl. reflexivity.
  - apply length_decode_elems.
  - apply decode_elems_fit. rewrite length_firstn. lia.
Qed.

(** X10.  Where the platform's C long is not 4 bytes, [read_array] of the
    typecodes "l" and "L" with a positive count reads the platform's size
    per element but unpacks with the 4-byte "!" format: with the bytes it
    asks for all there, it raises the unpacking error, and the cursor has
    moved past them. *)
Theorem read_array_long_mismatch (native : nat) (tc : ascii) (n : nat)
    (sf : StructFile) :
  can_read (file sf) = true ->
  fmt_of_typecode tc = Some Fl \/ fmt_of_typecode tc = Some FL ->
  native <> 4 -> 0 < n ->
  native * n <= length (skipn (cursor (file sf)) (content (file sf))) ->
  read_array native tc n sf
  = (Err StructError,
     set_file (set_cursor (cursor (file sf) + native * n) (file sf)) sf).
Proof.
  intros H Ec Hn Hp L.
  assert (E : exists c, fmt_of_typecode tc = Some c /\ std_size c = 4
                        /\ native_size native c = native).
  { destruct Ec as [Ec|Ec]; eexists; (split; [exact Ec|split; reflexivity]). }
  destruct E as [c (Ef & Es & En)].
  unfold read_array, sizemap_getitem, _SIZEMAP. rewrite Ef.
  cbn [option_map]. unfold bind at 1. unfold ret at 1.
  rewrite read_unpack by assumption. rewrite En.
  unfold unpack_array. rewrite Ef, Es.
  rewrite length_firstn, Nat.min_l by assumption.
  replace (native * n =? 4 * n) with false
    by (symmetry; apply Nat.eqb_neq; nia).
  reflexivity.
Qed.

(** X11.  A typecode that is not a key of [_SIZEMAP] makes [read_array]
    raise a key error before the file is touched, and [get_array] likewise
    on an instance that has its mapped view. *)
Theorem array_unknown_typecode (native : nat) (tc : ascii) (n p : nat)
    (sf : StructFile) :
  fmt_of_typecode tc = None ->
  read_array native tc n sf = (Err KeyError, sf)
  /\ (map sf <> None -> get_array native p tc n sf = (Err KeyError, sf)).
Proof.
  intros E. unfold read_array, get_array, sizemap_getitem, _SIZEMAP.
  rewrite E. cbn [option_map]. split; [reflexivity|].
  intros Em. destruct (map sf); [reflexivity|congruence].
Qed.

(** ** [write_byte] against [read_byte] *)

(** X12.  [write_byte(n)] for an integer [n].  An [n] outside
    [-maxsize - 1 .. maxsize] is refused with an overflow error, a negative
    [n] inside that range with a value error, and nothing is written.  On a
    file open for reading and writing, an [n] a byte can hold, [0 .. 255],
    puts [n] zero bytes at the cursor and moves the cursor [n] bytes on;
    for [n >= 1], a seek back and [read_byte] return 0, whatever [n]
    was. *)
Theorem write_byte_then_read_byte (n : Z) (sf : StructFile) :
  ((n < - maxsize - 1 \/ maxsize < n)%Z ->
   write_byte n sf = (Err OverflowError, sf))
  /\ ((- maxsize - 1 <= n < 0)%Z -> write_byte n sf = (Err ValueError, sf))
  /\ (read_write (file sf) = true -> (0 <= n <= 255)%Z ->
      (exists sf1,
          write_byte n sf = (Ok tt, sf1) /\
          cursor (file sf1) = cursor (file sf) + Z.to_nat n /\
          firstn (Z.to_nat n) (skipn (cursor (file sf)) (content (file sf1)))
          = repeat x00 (Z.to_nat n))
      /\ ((1 <= n)%Z ->
          outcome (write_byte n ;; seek (cursor (file sf)) ;; read_byte) sf
          = Ok 0%N)).
Proof.
  split; [|split].
  - intros L. unfold write_byte, bind, lift_result, bytes_of_int.
    replace ((n <? - maxsize - 1) || (maxsize <? n))%Z with true;
      [reflexivity|].
    symmetry. apply orb_true_iff.
    destruct L; [left|right]; apply Z.ltb_lt; assumption.
  - intros L. unfold write_byte, bind, lift_result, bytes_of_int.
    replace (n <? - maxsize - 1)%Z with false
      by (symmetry; apply Z.ltb_ge; lia).
    replace (maxsize <? n)%Z with false
      by (symmetry; apply Z.ltb_ge; unfold maxsize; lia).
    replace (n <? 0)%Z with true by (symmetry; apply Z.ltb_lt; lia).
    reflexivity.
  - intros H L.
    destruct (write_byte_zeros (Z.to_nat n) sf H) as [sf1 (E & Hc & Hs)];
      [unfold maxsize; lia|].
    rewrite Z2Nat.id in E by lia.
    split.
    + exists sf1. repeat split; auto.
      rewrite Hs. apply firstn_app_length, repeat_length.
    + intros L1. pose proof (read_write_true _ H) as (C & D & W).
      unfold outcome, bind. rewrite E.
      assert (K : exists f1, sf1 = set_file f1 sf /\ went_forward (file sf) f1).
      { destruct (write_byte_forward n sf) as [f1 [Ea Hf]].
        unfold after in Ea. rewrite E in Ea. eauto. }
      destruct K as [f1 [-> (C1 & D1 & _)]]. cbn [file set_file] in *.
      unfold seek, on_file, file_seek. cbn [file set_file].
      rewrite C1, C.
      unfold read_byte, bind, on_file, lift_result. cbn [file set_file].
      rewrite file_read_ok by (cbn; congruence).
      cbn [cursor content set_cursor fst]. rewrite Hs.
      destruct (Z.to_nat n) as [|k] eqn:Ek; [lia|]. reflexivity.
Qed.

(** ** The constructor and the real mapping *)


(** ** What reads never do *)

Lemma non_writing_moves (native : nat) (c : call) (sf : StructFile) :
  non_writing c = true ->
  exists f', method native c sf = set_file f' sf /\ moved_cursor (file sf) f'.
Proof.
  intros H. destruct c; try discriminate H; cbn [method].
  - apply flush_moves.
  - apply read_moves.
  - apply tell_moves.
  - apply seek_moves.
  - apply read_string_moves.
  - apply read_string2_moves.
  - apply skip_string_moves.
  - apply read_varint_moves.
  - apply read_byte_moves.
  - apply get_byte_moves.
  - apply read_typed_moves.
  - apply get_typed_moves.
  - apply map_getitem_moves.
Qed.

(** X14.  Whatever sequence of flushes, seeks, tells, sequential reads and
    mapped accesses an instance receives, whether they succeed or raise:
    the bytes of the file, the open or closed state of the handle, the
    mapped view and its spanning the file, the closed flag and the record
    of hook calls are what they were; nothing but the cursor can have
    changed. *)
Theorem reads_only_move_cursor (native : nat) (cs : list call) (w : World) :
  forallb non_writing cs = true ->
  exists p,
    inst (run native cs w)
    = set_file (set_cursor p (file (inst w))) (inst w)
    /\ hook_calls (run native cs w) = hook_calls w
    /\ view_current (inst (run native cs w)) = view_current (inst w).
Proof.
  revert w. induction cs as [|c cs IH]; intros w H.
  - exists (cursor (file (inst w))). cbn [run fold_left].
    rewrite set_cursor_same, set_file_same. auto.
  - cbn [forallb] in H. apply andb_true_iff in H as [Hc Hcs].
    cbn [run fold_left].
    assert (Nc : c <> Close) by (intros ->; discriminate Hc).
    fold (run native cs (exec native c w)).
    destruct (IH (exec native c w) Hcs) as [p (Ei & Eh & Ev)].
    exists p. rewrite Ev, Eh, Ei. clear Ei Eh Ev.
    rewrite (exec_method native c w Nc). cbn [inst hook_calls].
    destruct (non_writing_moves native c (inst w) Hc) as [f' [Em Hm]].
    rewrite Em. unfold moved_cursor in Hm. rewrite Hm.
    repeat split.
Qed.

(** ** After [close] *)

(** X15.  On every instance a client can get to and that is flagged closed,
    every mapped access raises an attribute error and leaves the instance
    as it was: [get_byte], each typed [get], and indexing the map. *)
Theorem mapped_access_after_close (native : nat) (w : World) :
  reachable native w ->
  is_closed (inst w) = true ->
  (forall p, get_byte p (inst w) = (Err AttributeError, inst w))
  /\ (forall t p,
         get_typed native t p (inst w) = (Err AttributeError, inst w))
  /\ (forall sl, map_getitem sl (inst w) = (Err AttributeError, inst w)).
Proof.
  intros Hw Hc.
  destruct (reachable_invariant native w Hw) as (_ & Iclosed & _).
  specialize (Iclosed Hc).
  assert (G : forall sl, map_getitem sl (inst w) = (Err AttributeError, inst w)).
  { intros sl. unfold map_getitem. rewrite Iclosed. reflexivity. }
  split; [|split; [|exact G]].
  - intros p. unfold get_byte, bind. rewrite G. reflexivity.
  - intros t p.
    destruct t; cbn [get_typed];
      unfold int_value, float_value, tuple_value, get_sbyte, get_int,
        get_uint, get_ushort, get_ulong, get_float, get_array, bind;
      rewrite ?G, ?Iclosed; reflexivity.
Qed.

(** X16.  After [close] on an instance that has its mapped view and whose
    handle has a [close] method, the sequential calls fail on the closed
    handle with a value error and leave the instance as it was: [read],
    [tell], [seek], [read_byte], [read_int], [read_varint], [read_string],
    [read_string2], [skip_string], and [write]. *)
Theorem sequential_after_close (w : World) (m : mapview) :
  map (inst w) = Some m ->
  has_close (file (inst w)) = true ->
  (forall n, read n (inst (after close w))
             = (Err ValueError, inst (after close w)))
  /\ tell (inst (after close w)) = (Err ValueError, inst (after close w))
  /\ (forall p, seek p (inst (after close w))
                = (Err ValueError, inst (after close w)))
  /\ read_byte (inst (after close w)) = (Err ValueError, inst (after close w))
  /\ read_int (inst (after close w)) = (Err ValueError, inst (after close w))
  /\ read_varint (inst (after close w))
     = (Err ValueError, inst (after close w))
  /\ read_string (inst (after close w))
     = (Err ValueError, inst (after close w))
  /\ read_string2 (inst (after close w))
     = (Err ValueError, inst (after close w))
  /\ skip_string (inst (after close w))
     = (Err ValueError, inst (after close w))
  /\ (forall d, write d (inst (after close w))
                = (Err ValueError, inst (after close w))).
Proof.
  intros Em Hc. unfold after. rewrite (close_mapped w m Em), Hc.
  cbn [snd inst].
  unfold read, tell, seek, read_byte, read_int, read_varint, read_string,
    read_string2, read_ushort, skip_string, write, bind, on_file, file_read,
    file_tell, file_seek, util_read_varint, file_write.
  cbn [file set_file set_is_closed closed set_closed].
  repeat split; intros; reflexivity.
Qed.

(** ** Records: several values written in a row and read back in order *)

Lemma bind_ok {S A B : Type} (m : M S A) (k : A -> M S B) (s s' : S) (a : A) :
  m s = (Ok a, s') -> (x <- m ;; k x) s = k a s'.
Proof. intros E. unfold bind. rewrite E. reflexivity. Qed.

Lemma written_from_start (sf : StructFile) :
  read_write (file sf) = true -> written_from (cursor (file sf)) [] sf.
Proof.
  intros H. split; [exact H|]. split; [simpl; lia|].
  exists (skipn (cursor (file sf)) (content (file sf))). reflexivity.
Qed.

(** A write puts its bytes after those already written. *)
Lemma write_extends (p : nat) (pre d : bytes) (sf : StructFile) :
  written_from p pre sf ->
  exists sf',
    on_file (file_write d) sf = (Ok tt, sf') /\ written_from p (pre ++ d) sf'.
Proof.
  intros (H & Hc & [rest Hs]). pose proof (read_write_true _ H) as (C & D & W).
  destruct (file_write_ok d (file sf) C W)
    as [f1 (E1 & Hc1 & Hs1 & C1 & D1 & W1)].
  exists (set_file f1 sf). split.
  { unfold on_file. rewrite E1. reflexivity. }
  split; [|split].
  - unfold read_write. cbn [file set_file]. rewrite C1, D1, D, W1. reflexivity.
  - cbn [file set_file]. rewrite length_app. lia.
  - cbn [file set_file].
    exists (skipn (cursor (file sf) + length d) (content (file sf))).
    destruct pre as [|b pre].
    + cbn [app length] in *. rewrite Nat.add_0_r in Hc. rewrite <- Hc.
      exact Hs1.
    + assert (Hl : p + length (b :: pre) <= length (content (file sf))).
      { apply (f_equal (@length byte)) in Hs.
        rewrite length_skipn, length_app in Hs. simpl in *. lia. }
      pose proof (file_write_forward d (file sf)) as F. unfold after in F.
      rewrite E1 in F. cbn [snd] in F.
      pose proof (went_forward_span (file sf) f1 p (length (b :: pre)) F) as S.
      rewrite Hs, firstn_app_exact in S.
      rewrite <- (firstn_skipn (length (b :: pre)) (skipn p (content f1))).
      rewrite S by lia. rewrite <- app_assoc. f_equal.
      rewrite skipn_skipn, Nat.add_comm, <- Hc. exact Hs1.
Qed.

(** After a seek back to where the writing started, what was written is
    ahead of the cursor. *)
Lemma seek_back (p : nat) (pre : bytes) (sf : StructFile) :
  written_from p pre sf ->
  seek p sf = (Ok tt, set_file (set_cursor p (file sf)) sf)
  /\ ahead pre (set_file (set_cursor p (file sf)) sf).
Proof.
  intros (H & Hc & [rest Hs]). pose proof (read_write_true _ H) as (C & D & W).
  split.
  - unfold seek, on_file, file_seek. rewrite C. reflexivity.
  - split.
    + unfold can_read. cbn [file set_file closed readable set_cursor].
      rewrite C, D. reflexivity.
    + exists rest. exact Hs.
Qed.

(** A read takes the bytes ahead of the cursor. *)
Lemma read_ahead (d more : bytes) (sf : StructFile) :
  ahead (d ++ more) sf ->
  exists sf',
    on_file (file_read (length d)) sf = (Ok d, sf') /\ ahead more sf'
    /\ _name sf' = _name sf.
Proof.
  intros (H & [rest Hs]). pose proof (can_read_true _ H) as (C & D).
  eexists. split; [|split].
  - unfold on_file. rewrite file_read_ok by assumption.
    rewrite Hs, <- app_assoc, firstn_app_exact. reflexivity.
  - split.
    + unfold can_read. cbn [file set_file closed readable set_cursor].
      rewrite C, D. reflexivity.
    + exists rest. cbn [file set_file cursor content set_cursor].
      rewrite Nat.add_comm, <- skipn_skipn, Hs, <- app_assoc.
      apply skipn_app_length. reflexivity.
  - reflexivity.
Qed.

Lemma read_varint_ahead (i : N) (more : bytes) (sf : StructFile) :
  ahead (varint i ++ more) sf ->
  exists sf', read_varint sf = (Ok i, sf') /\ ahead more sf'.
Proof.
  intros (H & [rest Hs]). pose proof (can_read_true _ H) as (C & D).
  rewrite <- app_assoc in Hs.
  eexists. split.
  - unfold read_varint, on_file.
    rewrite (util_read_varint_ok i (more ++ rest)) by assumption.
    reflexivity.
  - split.
    + unfold can_read. cbn [file set_file closed readable set_cursor].
      rewrite C, D. reflexivity.
    + exists rest. cbn [file set_file cursor content set_cursor].
      rewrite Nat.add_comm, <- skipn_skipn, Hs.
      apply skipn_app_length. reflexivity.
Qed.

Lemma read_int_ahead (d more : bytes) (sf : StructFile) :
  ahead (d ++ more) sf -> length d = 4 ->
  exists sf', read_int sf = (unpack_int (ItemBytes d), sf') /\ ahead more sf'.
Proof.
  intros A L. destruct (read_ahead d more sf A) as [sf' (E & A' & _)].
  rewrite L in E. exists sf'. split; [|exact A'].
  unfold read_int, _INT_SIZE. rewrite (bind_ok _ _ _ _ _ E).
  rewrite L. reflexivity.
Qed.

Lemma read_unpack_ahead {A : Type} (k : nat) (u : pyitem -> result A)
    (d more : bytes) (sf : StructFile) :
  ahead (d ++ more) sf -> length d = k ->
  exists sf',
    (x <- on_file (file_read k) ;; lift_result (u (ItemBytes x))) sf
    = (u (ItemBytes d), sf')
    /\ ahead more sf'.
Proof.
  intros Ah L. destruct (read_ahead d more sf Ah) as [sf' (E & A' & _)].
  rewrite L in E. exists sf'. split; [|exact A'].
  rewrite (bind_ok _ _ _ _ _ E). reflexivity.
Qed.

Lemma read_string_ahead (s more : bytes) (sf : StructFile) :
  ahead (varint (N.of_nat (length s)) ++ s ++ more) sf ->
  exists sf', read_string sf = (Ok (PyBytes s), sf') /\ ahead more sf'.
Proof.
  intros A.
  destruct (read_varint_ahead _ _ sf A) as [sf1 (E1 & A1)].
  destruct (read_ahead s more sf1 A1) as [sf2 (E2 & A2 & _)].
  exists sf2. split; [|exact A2].
  unfold read_string. rewrite (bind_ok _ _ _ _ _ E1).
  rewrite Nat2N.id. rewrite (bind_ok _ _ _ _ _ E2). reflexivity.
Qed.

Lemma write_string_extends (p : nat) (pre s : bytes) (sf : StructFile) :
  written_from p pre sf ->
  exists sf',
    write_string (PyBytes s) sf = (Ok tt, sf')
    /\ written_from p (pre ++ varint (N.of_nat (length s)) ++ s) sf'.
Proof.
  intros W0.
  destruct (write_extends p pre (varint (N.of_nat (length s))) sf W0)
    as [sf1 (E1 & W1)].
  destruct (write_extends p _ s sf1 W1) as [sf2 (E2 & W2)].
  exists sf2. split.
  - unfold write_string, write_varint. cbn [len file_write_pystring].
    rewrite (bind_ok _ _ _ _ _ E1). exact E2.
  - rewrite app_assoc. exact W2.
Qed.

(** X17.  A record written field after field comes back field after field.
    On a file open for reading and writing, for every int [a] and unsigned
    short [b] that fit their formats and every byte string [s]:
    [write_int(a)], [write_ushort(b)], [write_string(s)], a seek back to
    where the record starts, then [read_int()], [read_ushort()] and
    [read_string()] return [a], [b] and [s]. *)
Theorem record_roundtrip (a b : Z) (s : bytes) (sf : StructFile) :
  read_write (file sf) = true ->
  (-2147483648 <= a < 2147483648)%Z ->
  (0 <= b < 65536)%Z ->
  outcome (write_int a ;; write_ushort b ;; write_string (PyBytes s) ;;
           seek (cursor (file sf)) ;;
           x <- read_int ;; y <- read_ushort ;; z <- read_string ;;
           ret (x, y, z)) sf
  = Ok (a, b, PyBytes s).
Proof.
  intros H Ra Rb.
  destruct (pack_signed_ok 4 a) as [ha (Eha & Lha & Dha)];
    [lia | pow2_bounds; lia |].
  destruct (pack_unsigned_ok 2 b) as [hb (Ehb & Lhb & Dhb)];
    [pow2_bounds; lia |].
  pose proof (written_from_start sf H) as W0.
  destruct (write_extends _ _ ha sf W0) as [sf1 (E1 & W1)].
  destruct (write_extends _ _ hb sf1 W1) as [sf2 (E2 & W2)].
  destruct (write_string_extends _ _ s sf2 W2) as [sf3 (E3 & W3)].
  destruct (seek_back _ _ sf3 W3) as [E4 A4].
  cbn [app] in A4. rewrite <- !app_assoc in A4.
  destruct (read_int_ahead ha _ _ A4 Lha) as [sf5 (E5 & A5)].
  destruct (read_unpack_ahead 2 unpack_ushort hb _ sf5 A5 Lhb)
    as [sf6 (E6 & A6)].
  assert (A6' : ahead (varint (N.of_nat (length s)) ++ s ++ []) sf6)
    by (rewrite app_nil_r; exact A6).
  destruct (read_string_ahead s [] sf6 A6') as [sf7 (E7 & _)].
  assert (Ua : unpack_int (ItemBytes ha) = Ok a).
  { unfold unpack_int, unpack_signed. rewrite Lha, Dha. reflexivity. }
  assert (Ub : unpack_ushort (ItemBytes hb) = Ok b).
  { unfold unpack_ushort, unpack_unsigned. rewrite Lhb, Dhb. reflexivity. }
  rewrite Ua in E5. rewrite Ub in E6.
  unfold outcome.
  assert (Wa : write_int a sf = (Ok tt, sf1)).
  { unfold write_int, pack_int, write_packed. rewrite Eha. exact E1. }
  assert (Wb : write_ushort b sf1 = (Ok tt, sf2)).
  { unfold write_ushort, pack_ushort, write_packed. rewrite Ehb. exact E2. }
  rewrite (bind_ok _ _ _ _ _ Wa), (bind_ok _ _ _ _ _ Wb),
    (bind_ok _ _ _ _ _ E3), (bind_ok _ _ _ _ _ E4), (bind_ok _ _ _ _ _ E5).
  fold read_ushort in E6. unfold _USHORT_SIZE in *.
  rewrite (bind_ok _ _ _ _ _ E6), (bind_ok _ _ _ _ _ E7).
  reflexivity.
Qed.

End FileOnDisk.

(** * Examples *)

(** The first argument of a mapped access, of a call and of [reachable] is
    the file on disk.  An in-memory file has none: the examples over
    [BytesIO] give it as empty. *)

Lemma write_varint_read_varint_witness :
  exists sf1 sf2,
    write_varint 300 (unmapped (BytesIO [])) = (Ok tt, sf1) /\
    (seek 0 ;; read_varint) sf1 = (Ok 300%N, sf2) /\
    cursor (file sf2) = cursor (file sf1).
Proof.
  apply (write_varint_read_varint 300 (unmapped (BytesIO []))). reflexivity.
Defined.

Lemma string_roundtrip_witness :
  outcome (write_string (PyBytes abc) ;; seek 0 ;; read_string)
          (unmapped (BytesIO []))
  = Ok (PyBytes abc)
  /\ outcome (write_string2 (PyBytes abc) ;; seek 0 ;; read_string2)
             (unmapped (BytesIO []))
     = Ok (PyBytes abc)
  /\ outcome (write_string2 (PyStr [97; 98; 99]%N) ;; seek 0 ;; read_string2)
             (unmapped (BytesIO []))
     = Ok (PyBytes abc).
Proof.
  destruct (string_roundtrip abc (unmapped (BytesIO [])) eq_refl)
    as (V1 & V2 & _).
  destruct V2 as (V2 & V3); [simpl; lia|].
  split; [exact V1|]. split; [exact V2|]. apply V3. reflexivity.
Defined.

(** C3, as stated, fails: a byte string of 65536 bytes does not go through
    variant 2, and a text string written by variant 2 comes back as
    bytes. *)
Lemma string_roundtrip_counterexample :
  outcome (write_string2 long_bytes ;; seek 0 ;; read_string2)
          (unmapped (BytesIO []))
  <> Ok long_bytes
  /\ outcome (write_string2 text_a ;; seek 0 ;; read_string2)
             (unmapped (BytesIO []))
     <> Ok text_a.
Proof.
  assert (E1 : outcome (write_string2 long_bytes ;; seek 0 ;; read_string2)
                       (unmapped (BytesIO []))
               = Err StructError) by (vm_compute; reflexivity).
  assert (E3 : outcome (write_string2 text_a ;; seek 0 ;; read_string2)
                       (unmapped (BytesIO []))
               = Ok (PyBytes [x61])) by (vm_compute; reflexivity).
  rewrite E1, E3. split; discriminate.
Qed.

Lemma read_int_checks_truncation_witness :
  outcome read_int (unmapped (BytesIO [xff; xff; xfe]))
  = Err (IOError None 3 [xff; xff; xfe] 4 3)
  /\ outcome read_int (unmapped (BytesIO [xff; xff; xff; xfe])) = Ok (-2)%Z.
Proof.
  split.
  - destruct (read_int_checks_truncation
                (unmapped (BytesIO [xff; xff; xfe])) eq_refl) as [T _].
    apply T. simpl. lia.
  - destruct (read_int_checks_truncation
                (unmapped (BytesIO [xff; xff; xff; xfe])) eq_refl) as [_ V].
    destruct V as (b0 & b1 & b2 & b3 & v & _ & E & _); [simpl; lia|].
    rewrite E. vm_compute in E. symmetry. exact E.
Defined.

Lemma init_falls_back_witness :
  (exists sf,
     __init__ false (open_rb []) None None true = Ok sf /\
     map sf = Some FakeMap)
  /\ (exists sf,
        __init__ true (open_rb abc) None None true = Ok sf /\
        map sf = Some FakeMap)
  /\ (exists sf,
        __init__ false (BytesIO abc) None None true = Ok sf /\
        map sf = Some FakeMap).
Proof.
  split; [|split].
  - destruct (init_falls_back [] false (open_rb []) None None true)
      as [_ [sf (E & Em & _)]]; [right; right; left; reflexivity|].
    exists sf. split; assumption.
  - destruct (init_falls_back abc true (open_rb abc) None None true)
      as [_ [sf (E & Em & _)]].
    { right; right; right. split; [reflexivity|]. eexists; reflexivity. }
    exists sf. split; assumption.
  - destruct (init_falls_back [] false (BytesIO abc) None None true)
      as [_ [sf (E & Em & _)]]; [right; left; reflexivity|].
    exists sf. split; assumption.
Defined.

(** C6, as stated, fails.  With mapping requested on a handle in a read
    mode that has no file descriptor, the constructor raises and no
    instance is made: when the file is empty, and when the operating system
    would refuse the mapping. *)
Lemma init_falls_back_counterexample :
  __init__ false (zip_member []) None None true = Err UnsupportedOperation
  /\ __init__ true (zip_member abc) None None true = Err UnsupportedOperation.
Proof. split; reflexivity. Qed.

Lemma close_is_terminal_witness :
  exists w',
    close (mkWorld (hooked (BytesIO abc) 7) []) = (Ok tt, w') /\
    map (inst w') = None /\
    hook_calls w' = [(7, set_map None (hooked (BytesIO abc) 7))] /\
    closed (file (inst w')) = true /\
    is_closed (inst w') = true.
Proof.
  destruct (close_is_terminal [] 8 (mkWorld (hooked (BytesIO abc) 7) [])
              (reach_init [] 8 false (BytesIO abc) None (Some 7) true _ eq_refl)
              eq_refl)
    as [w' (E & Em & Ec & Ef & Ei & _)].
  exists w'. repeat split; try assumption.
  rewrite Ef. reflexivity.
Defined.

Lemma second_close_raises_witness :
  close (exec [] 8 Close (mkWorld (hooked (BytesIO abc) 7) []))
  = (Err AttributeError, exec [] 8 Close (mkWorld (hooked (BytesIO abc) 7) []))
  /\ length (hook_calls
               (exec [] 8 Close
                  (exec [] 8 Close (mkWorld (hooked (BytesIO abc) 7) []))))
     <= 1.
Proof.
  split.
  - apply (second_close_raises [] 8
             (exec [] 8 Close (mkWorld (hooked (BytesIO abc) 7) []))).
    + apply reach_call.
      exact (reach_init [] 8 false (BytesIO abc) None (Some 7) true _ eq_refl).
    + reflexivity.
  - apply (second_close_raises [] 8
             (exec [] 8 Close
                (exec [] 8 Close (mkWorld (hooked (BytesIO abc) 7) [])))).
    do 2 apply reach_call.
    exact (reach_init [] 8 false (BytesIO abc) None (Some 7) true _ eq_refl).
Defined.





Lemma integer_write_read_witness :
  outcome (write_sbyte (-5) ;; seek 0 ;; read_sbyte) (unmapped (BytesIO []))
  = Ok (-5)%Z
  /\ outcome (write_ushort 7 ;; seek 0 ;; read_ushort) (unmapped (BytesIO []))
     = Ok 7%Z
  /\ outcome (write_int 42 ;; seek 0 ;; read_int) (unmapped (BytesIO []))
     = Ok 42%Z.
Proof.
  split; [|split].
  - apply (integer_write_read (-5) (unmapped (BytesIO [])) eq_refl). lia.
  - apply (integer_write_read 7 (unmapped (BytesIO [])) eq_refl). lia.
  - apply (integer_write_read 42 (unmapped (BytesIO [])) eq_refl). lia.
Defined.

Lemma integer_write_out_of_range_witness :
  write_ushort 65536 (unmapped (BytesIO abc))
  = (Err StructError, unmapped (BytesIO abc))
  /\ write_sbyte 128 (unmapped (BytesIO abc))
     = (Err StructError, unmapped (BytesIO abc)).
Proof.
  split.
  - apply (integer_write_out_of_range 65536 (unmapped (BytesIO abc))). lia.
  - apply (integer_write_out_of_range 128 (unmapped (BytesIO abc))). lia.
Defined.

Lemma integer_write_get_witness :
  outcome (write_int (-2) ;; get_int [] 0) (unmapped (BytesIO [])) = Ok (-2)%Z
  /\ outcome (write_ushort 7 ;; get_ushort [] 0) (unmapped (BytesIO []))
     = Ok 7%Z.
Proof.
  split.
  - apply (integer_write_get [] (-2) (unmapped (BytesIO [])) eq_refl eq_refl).
    lia.
  - apply (integer_write_get [] 7 (unmapped (BytesIO [])) eq_refl eq_refl).
    lia.
Defined.

Lemma short_read_raises_witness :
  read_ushort (unmapped (BytesIO [xff]))
  = (Err StructError,
     set_file (set_cursor 1 (BytesIO [xff])) (unmapped (BytesIO [xff])))
  /\ read_ulong (unmapped (BytesIO abc))
     = (Err StructError,
        set_file (set_cursor 3 (BytesIO abc)) (unmapped (BytesIO abc)))
  /\ read_float (unmapped (BytesIO abc))
     = (Err StructError,
        set_file (set_cursor 3 (BytesIO abc)) (unmapped (BytesIO abc)))
  /\ read_sbyte (unmapped (BytesIO []))
     = (Err StructError, unmapped (BytesIO [])).
Proof.
  pose proof (short_read_raises (unmapped (BytesIO [xff])) eq_refl)
    as (_ & S & _).
  pose proof (short_read_raises (unmapped (BytesIO abc)) eq_refl)
    as (_ & _ & F).
  pose proof (short_read_raises (unmapped (BytesIO [])) eq_refl)
    as (B & _).
  split; [apply S; simpl; lia|].
  destruct F as (_ & L & F); [simpl; lia|].
  split; [exact L|]. split; [exact F|].
  apply B. simpl. lia.
Defined.

Lemma read_byte_value_witness :
  read_byte (unmapped (BytesIO abc))
  = (Ok 97%N, set_file (set_cursor 1 (BytesIO abc)) (unmapped (BytesIO abc)))
  /\ read_byte (unmapped (BytesIO [])) = (Err TypeError, unmapped (BytesIO [])).
Proof.
  split.
  - apply (read_byte_value (unmapped (BytesIO abc)) eq_refl).
  - apply (read_byte_value (unmapped (BytesIO [])) eq_refl).
Defined.



Lemma read_string2_truncated_witness :
  outcome read_string2 (unmapped (BytesIO [x00])) = Err StructError
  /\ outcome read_string2 (unmapped (BytesIO [x00; x05; x61; x62]))
     = Ok (PyBytes [x61; x62]).
Proof.
  split.
  - apply (read_string2_truncated (unmapped (BytesIO [x00])) eq_refl).
    simpl. lia.
  - destruct (read_string2_truncated
                (unmapped (BytesIO [x00; x05; x61; x62])) eq_refl)
      as [_ T].
    apply (T x00 x05 [x61; x62] eq_refl).
Defined.

Lemma read_array_elements_witness :
  exists xs,
    read_array 8 "H" 2 (unmapped (BytesIO four))
    = (Ok xs, set_file (set_cursor 4 (BytesIO four)) (unmapped (BytesIO four)))
    /\ length xs = 2
    /\ Forall (fits FH) xs.
Proof.
  apply (read_array_elements 8 "H" FH 2 (unmapped (BytesIO four)));
    reflexivity.
Defined.

Lemma read_array_long_mismatch_witness :
  read_array 8 "l" 1 (unmapped (BytesIO (four ++ four)))
  = (Err StructError,
     set_file (set_cursor 8 (BytesIO (four ++ four)))
       (unmapped (BytesIO (four ++ four)))).
Proof.
  apply (read_array_long_mismatch 8 "l" 1 (unmapped (BytesIO (four ++ four)))
           eq_refl (or_introl eq_refl)).
  - discriminate.
  - lia.
  - simpl. lia.
Defined.

Lemma array_unknown_typecode_witness :
  read_array 8 "d" 1 (unmapped (BytesIO four))
  = (Err KeyError, unmapped (BytesIO four))
  /\ get_array four 8 0 "d" 1 (mmapped (open_rb four))
     = (Err KeyError, mmapped (open_rb four)).
Proof.
  destruct (array_unknown_typecode [] 8 "d" 1 0 (unmapped (BytesIO four))
              eq_refl) as [R _].
  destruct (array_unknown_typecode four 8 "d" 1 0 (mmapped (open_rb four))
              eq_refl) as [_ G].
  split; [exact R|]. apply G. discriminate.
Defined.

Lemma write_byte_then_read_byte_witness :
  write_byte (2 ^ 63) (unmapped (BytesIO abc))
  = (Err OverflowError, unmapped (BytesIO abc))
  /\ write_byte (-1) (unmapped (BytesIO abc))
     = (Err ValueError, unmapped (BytesIO abc))
  /\ outcome (write_byte 200 ;; seek 0 ;; read_byte) (unmapped (BytesIO []))
     = Ok 0%N.
Proof.
  destruct (write_byte_then_read_byte (2 ^ 63) (unmapped (BytesIO abc)))
    as [O _].
  destruct (write_byte_then_read_byte (-1) (unmapped (BytesIO abc)))
    as [_ [N _]].
  destruct (write_byte_then_read_byte 200 (unmapped (BytesIO [])))
    as [_ [_ P]].
  split; [apply O; right; reflexivity|].
  split; [apply N; split; [discriminate | reflexivity]|].
  destruct P as [_ P]; [reflexivity|lia|]. apply P. lia.
Defined.


Lemma reads_only_move_cursor_witness :
  exists p,
    inst (run [] 8 [GetByte 1; ReadTyped Tint; Seek 9; ReadByte]
            (mkWorld (unmapped (BytesIO abc)) []))
    = set_file (set_cursor p (BytesIO abc)) (unmapped (BytesIO abc)).
Proof.
  destruct (reads_only_move_cursor [] 8
              [GetByte 1; ReadTyped Tint; Seek 9; ReadByte]
              (mkWorld (unmapped (BytesIO abc)) []) eq_refl)
    as [p (E & _)].
  exists p. exact E.
Defined.

Lemma mapped_access_after_close_witness :
  get_typed [] 8 Tint 0
    (inst (exec [] 8 Close (mkWorld (hooked (BytesIO four) 7) [])))
  = (Err AttributeError,
     inst (exec [] 8 Close (mkWorld (hooked (BytesIO four) 7) []))).
Proof.
  apply (mapped_access_after_close [] 8
           (exec [] 8 Close (mkWorld (hooked (BytesIO four) 7) []))).
  - apply reach_call.
    exact (reach_init [] 8 false (BytesIO four) None (Some 7) true _ eq_refl).
  - reflexivity.
Defined.

Lemma sequential_after_close_witness :
  read_int (inst (after close (mkWorld (unmapped (BytesIO four)) [])))
  = (Err ValueError,
     inst (after close (mkWorld (unmapped (BytesIO four)) []))).
Proof.
  apply (sequential_after_close (mkWorld (unmapped (BytesIO four)) [])
           FakeMap eq_refl eq_refl).
Defined.

Lemma record_roundtrip_witness :
  outcome (write_int 42 ;; write_ushort 7 ;; write_string (PyBytes abc) ;;
           seek 0 ;;
           x <- read_int ;; y <- read_ushort ;; z <- read_string ;;
           ret (x, y, z)) (unmapped (BytesIO []))
  = Ok (42%Z, 7%Z, PyBytes abc).
Proof.
  apply (record_roundtrip 42 7 abc (unmapped (BytesIO [])) eq_refl); lia.
Defined.
